(** * The card-table write barrier of HotSpot: BarrierSet::write_ref_array and
      the deferred initial card mark protocol of CardTableModRefBS.

    Sources embedded here:
    - src/hotspot/share/gc/shared/barrierSet.inline.hpp
    - src/hotspot/share/gc/shared/cardTableModRefBS.cpp
    - src/unnamed/part_000 (jstat's OptionFinder), in [Module OptionFinder]

    Conventions.
    - The target is LP64: pointers and [size_t] are 64-bit unsigned integers,
      kept as [Z] with the wrap-around of every operation written out.
    - [assert] is HotSpot's debug assertion: a failed assertion stops the VM.
      Operations therefore return a [result]: either the new state or the
      message of the assertion that fired.
    - The C++ objects that the operations mutate ([CardTableModRefBS], its
      [CardTable], the [JavaThread]) are passed in and handed back.
    - [#if defined(COMPILER2) || INCLUDE_JVMCI] is a field of the build
      configuration, so both arms of each conditional are present. *)

From Stdlib Require Import ZArith Lia Bool String.
From stdpp Require Import base list.

Local Open Scope string_scope.
Local Open Scope Z_scope.

(** ** Results of operations that may hit an assertion *)

Inductive result (A : Type) : Type :=
| Ok (a : A)
| Fatal (msg : string).
Arguments Ok {A} a.
Arguments Fatal {A} msg.

#[global] Instance result_ret : MRet result := fun _ a => Ok a.
#[global] Instance result_bind : MBind result := fun _ _ f m =>
  match m with
  | Ok a => f a
  | Fatal msg => Fatal msg
  end.

(** [assert(cond, msg)] *)
Definition assert (cond : bool) (msg : string) : result unit :=
  if cond then Ok tt else Fatal msg.

Definition is_Ok {A} (r : result A) : bool :=
  match r with Ok _ => true | Fatal _ => false end.

(** ** Machine integers and alignment *)

(** Pointer and [size_t] arithmetic is modulo [2^64]. *)
Definition wrap (z : Z) : Z := z mod 2 ^ 64.

(** Modelled from the spec: utilities/globalDefinitions.hpp is not among the
    sources. The native word, "the minimum addressable unit" of the
    alignment rule; 8 bytes on LP64. *)
Definition HeapWordSize : Z := 8.

(** Modelled from the spec: utilities/globalDefinitions.hpp is not among the
    sources. The "defined maximum" of the element count: the largest signed
    word. *)
Definition max_intx : Z := 2 ^ 63 - 1.

(** Modelled from the spec: utilities/align.hpp is not among the sources.
    "start rounded down" to a multiple of the alignment. *)
Definition align_down (p alignment : Z) : Z := p - p mod alignment.

(** Modelled from the spec: utilities/align.hpp is not among the sources.
    "end rounded up" to a multiple of the alignment; the result is again a
    64-bit pointer. *)
Definition align_up (p alignment : Z) : Z :=
  wrap (align_down (p + (alignment - 1)) alignment).

(** ** Memory regions *)

Module MemRegion.

(** Modelled from the spec: memory/memRegion.hpp is not among the sources.
    A region is "start address + size". The start is a byte address and the
    size counts heap words, which is how the calls in the sources build a
    region from an object and its size. *)
Record t : Type := make { start : Z; word_size : Z }.

(** Modelled from the spec: the region of the default constructor, which the
    flush stores to clear the slot. *)
Definition empty : t := make 0 0.

(** Modelled from the spec: the region between two word-aligned pointers; its
    size is their distance in heap words, computed in [size_t]. *)
Definition of_range (s e : Z) : t := make s (wrap (e - s) / HeapWordSize).

(** Modelled from the spec: a region is empty when it has no words. *)
Definition is_empty (mr : t) : bool := word_size mr =? 0.

(** Modelled from the spec: one past the last byte of the region. *)
Definition end_ (mr : t) : Z := start mr + word_size mr * HeapWordSize.

End MemRegion.

(** Two half-open byte ranges [lo1, hi1) and [lo2, hi2) share a byte. *)
Definition intersects (lo1 hi1 lo2 hi2 : Z) : bool :=
  Z.max lo1 lo2 <? Z.min hi1 hi2.

(** ** The card table *)

Module CardTable.

(** Modelled from the spec: gc/shared/cardTable.hpp is not among the sources.
    "one byte-state per card (clean/dirty)". *)
Inductive card : Type := clean_card | dirty_card.

(** Modelled from the spec: gc/shared/cardTable.hpp is not among the sources.
    The table has the "base address ... of the covered heap range", "a fixed
    card size (power-of-two byte granularity ...)" given by its shift, and
    the states of its cards; [scanned_concurrently] is the collector's answer
    to "this collector requires mark-after-store ordering". *)
Record t : Type := make {
  base : Z;
  card_shift : Z;
  byte_map : list card;
  scanned_concurrently : bool
}.

(** Modelled from the spec: the card size in bytes. *)
Definition card_size (ct : t) : Z := 2 ^ card_shift ct.

(** Modelled from the spec: cards are "indexed by
    (address - base) >> card_shift". *)
Definition index_for (ct : t) (p : Z) : Z := Z.shiftr (p - base ct) (card_shift ct).

(** Modelled from the spec: the bytes of card [i] are
    [card_start ct i, card_end ct i). *)
Definition card_start (ct : t) (i : nat) : Z := base ct + Z.of_nat i * card_size ct.

(** Modelled from the spec: one past the last byte of card [i]. *)
Definition card_end (ct : t) (i : nat) : Z := card_start ct i + card_size ct.

(** Modelled from the spec: card [i] is one of the "card[s] overlapping
    region". *)
Definition card_overlaps (ct : t) (i : nat) (mr : MemRegion.t) : bool :=
  intersects (card_start ct i) (card_end ct i) (MemRegion.start mr) (MemRegion.end_ mr).

(** Modelled from the spec: gc/shared/cardTable.cpp is not among the sources.
    "dirty(region): marks every card overlapping region as dirty. No return
    value; always succeeds". *)
Definition dirty_MemRegion (ct : t) (mr : MemRegion.t) : t :=
  make (base ct) (card_shift ct)
       (imap (fun i c => if card_overlaps ct i mr then dirty_card else c) (byte_map ct))
       (scanned_concurrently ct).

(** Modelled from the spec: gc/shared/cardTable.cpp is not among the sources.
    "invalidate(region): identical contract to dirty". *)
Definition invalidate (ct : t) (mr : MemRegion.t) : t := dirty_MemRegion ct mr.

(** Modelled from the spec: "query(card): returns dirty/clean state", for a
    card the table has. *)
Definition query (ct : t) (i : nat) : option card := byte_map ct !! i.

End CardTable.

(** ** Collaborators: VM flags, build configuration, heap, thread *)

(** The global flags and build-time switches the two source files read.
    [COMPILER2_or_JVMCI] stands for [defined(COMPILER2) || INCLUDE_JVMCI];
    [can_elide_tlab_store_barriers] is the barrier set's own virtual answer,
    declared in a header that is not among the sources. *)
Record Globals : Type := {
  COMPILER2_or_JVMCI : bool;
  UseCompressedOops : bool;
  ReduceInitialCardMarks : bool;
  DeferInitialCardMark : bool;
  is_server_compilation_mode_vm : bool;
  can_elide_tlab_store_barriers : bool
}.

(** Modelled from the spec: utilities/globalDefinitions.hpp is not among the
    sources. The size in bytes of a reference slot: a native word, or half
    of it under the "compact (narrow) reference encoding". *)
Definition heapOopSize (g : Globals) : Z :=
  if UseCompressedOops g then 4 else 8.

(** What the barrier asks of the heap about the object at an address: the
    "black-box boolean collaborator" [is_in_young], the object's declared
    [size] in heap words (an [int]), whether it is a primitive-element
    array, and [oopDesc::is_oop]. *)
Record Heap : Type := {
  is_in_young : Z -> bool;
  is_typeArray : Z -> bool;
  size : Z -> Z;
  is_oop : Z -> bool
}.

(** Modelled from the spec: runtime/thread.hpp is not among the sources. The
    part of [JavaThread] the barrier uses is the deferred card mark slot,
    "an optional memory region". *)
Record JavaThread : Type := { _deferred_card_mark : MemRegion.t }.

(** Modelled from the spec: reading the slot. *)
Definition deferred_card_mark (thread : JavaThread) : MemRegion.t :=
  _deferred_card_mark thread.

(** Modelled from the spec: writing the slot; it is "set by the
    allocation-exit hook; cleared by the flush operation". *)
Definition set_deferred_card_mark (thread : JavaThread) (mr : MemRegion.t) : JavaThread :=
  {| _deferred_card_mark := mr |}.

(** Modelled from the spec: the slot is "created empty at thread start". *)
Definition new_JavaThread : JavaThread :=
  {| _deferred_card_mark := MemRegion.empty |}.

(** ** BarrierSet (barrierSet.inline.hpp) *)

(** The virtual [write_ref_array_work] that each barrier strategy supplies. *)
Class BarrierSet (B : Type) : Type := {
  write_ref_array_work : B -> MemRegion.t -> B
}.

(** The end of the written bytes as the code computes it: [start] moved
    forward by [count * heapOopSize] bytes, a product in [size_t] and a
    pointer sum. *)
Definition write_end (g : Globals) (start count : Z) : Z :=
  wrap (start + wrap (count * heapOopSize g)).

(** [BarrierSet::write_ref_array(HeapWord* start, size_t count)] *)
Definition write_ref_array `{BarrierSet B} (g : Globals) (bs : B)
    (start count : Z) : result B :=
  assert (count <=? max_intx) "count too large" ;;
  let end_ := write_end g start count in
  let aligned_start := align_down start HeapWordSize in
  let aligned_end := align_up end_ HeapWordSize in
  assert (UseCompressedOops g || ((aligned_start =? start) && (aligned_end =? end_)))
         "Expected heap word alignment of start and end" ;;
  Ok (write_ref_array_work bs (MemRegion.of_range aligned_start aligned_end)).

(** ** CardTableModRefBS (cardTableModRefBS.cpp) *)

(** The barrier set: its defer flag and the card table it owns. *)
Record CardTableModRefBS : Type := {
  _defer_initial_card_mark : bool;
  _card_table : CardTable.t
}.

(** [CardTableModRefBS::CardTableModRefBS(CardTable* card_table)] *)
Definition new_CardTableModRefBS (card_table : CardTable.t) : CardTableModRefBS :=
  {| _defer_initial_card_mark := false; _card_table := card_table |}.

(** [CardTableModRefBS::write_ref_array_work(MemRegion mr)] *)
#[global] Instance CardTableModRefBS_BarrierSet : BarrierSet CardTableModRefBS := {
  write_ref_array_work bs mr :=
    {| _defer_initial_card_mark := _defer_initial_card_mark bs;
       _card_table := CardTable.dirty_MemRegion (_card_table bs) mr |}
}.

(** [CardTableModRefBS::invalidate(MemRegion mr)] *)
Definition invalidate (bs : CardTableModRefBS) (mr : MemRegion.t) : CardTableModRefBS :=
  {| _defer_initial_card_mark := _defer_initial_card_mark bs;
     _card_table := CardTable.invalidate (_card_table bs) mr |}.

(** Modelled from the spec: [write_region] is declared in a header that is
    not among the sources; it is "record_bulk_overwrite(region): equivalent
    to invalidate". *)
Definition write_region (bs : CardTableModRefBS) (mr : MemRegion.t) : CardTableModRefBS :=
  invalidate bs mr.

(** [CardTableModRefBS::card_mark_must_follow_store() const] *)
Definition card_mark_must_follow_store (bs : CardTableModRefBS) : bool :=
  CardTable.scanned_concurrently (_card_table bs).

(** [CardTableModRefBS::initialize_deferred_card_mark_barriers()] *)
Definition initialize_deferred_card_mark_barriers (g : Globals)
    (bs : CardTableModRefBS) : result CardTableModRefBS :=
  if COMPILER2_or_JVMCI g then
    Ok {| _defer_initial_card_mark :=
            is_server_compilation_mode_vm g && ReduceInitialCardMarks g
            && can_elide_tlab_store_barriers g
            && (DeferInitialCardMark g || card_mark_must_follow_store bs);
          _card_table := _card_table bs |}
  else
    assert (eqb (_defer_initial_card_mark bs) false) "Who would set it?" ;;
    Ok bs.

(** [CardTableModRefBS::initialize()] *)
Definition initialize (g : Globals) (bs : CardTableModRefBS) : result CardTableModRefBS :=
  initialize_deferred_card_mark_barriers g bs.

(** [(size_t)] applied to an [int]. *)
Definition to_size_t (n : Z) : Z := wrap n.

(** [CardTableModRefBS::flush_deferred_card_mark_barrier(JavaThread* thread)] *)
Definition flush_deferred_card_mark_barrier (g : Globals) (h : Heap)
    (bs : CardTableModRefBS) (thread : JavaThread)
    : result (CardTableModRefBS * JavaThread) :=
  if COMPILER2_or_JVMCI g then
    let deferred := deferred_card_mark thread in
    '(bs, thread) ←
      (if negb (MemRegion.is_empty deferred) then
         assert (_defer_initial_card_mark bs) "Otherwise should be empty" ;;
         let old_obj := MemRegion.start deferred in
         assert (negb (is_in_young h old_obj))
                "Else should have been filtered in on_slowpath_allocation_exit()" ;;
         assert (is_oop h old_obj) "Not an oop" ;;
         assert (MemRegion.word_size deferred =? to_size_t (size h old_obj))
                "Mismatch: multiple objects?" ;;
         let bs := write_region bs deferred in
         (* "Clear" the deferred_card_mark field *)
         Ok (bs, set_deferred_card_mark thread MemRegion.empty)
       else Ok (bs, thread));
    assert (MemRegion.is_empty (deferred_card_mark thread)) "invariant" ;;
    Ok (bs, thread)
  else
    assert (negb (_defer_initial_card_mark bs)) "Should be false" ;;
    assert (MemRegion.is_empty (deferred_card_mark thread)) "Should be empty" ;;
    Ok (bs, thread).

(** [CardTableModRefBS::on_slowpath_allocation_exit(JavaThread* thread, oop new_obj)] *)
Definition on_slowpath_allocation_exit (g : Globals) (h : Heap)
    (bs : CardTableModRefBS) (thread : JavaThread) (new_obj : Z)
    : result (CardTableModRefBS * JavaThread) :=
  if COMPILER2_or_JVMCI g then
    if negb (ReduceInitialCardMarks g) then Ok (bs, thread)
    else
      (* If a previous card-mark was deferred, flush it now. *)
      '(bs, thread) ← flush_deferred_card_mark_barrier g h bs thread;
      if is_typeArray h new_obj || is_in_young h new_obj then
        assert (MemRegion.is_empty (deferred_card_mark thread)) "Error" ;;
        Ok (bs, thread)
      else
        let mr := MemRegion.make new_obj (to_size_t (size h new_obj)) in
        assert (negb (MemRegion.is_empty mr)) "Error" ;;
        if _defer_initial_card_mark bs then
          (* Defer the card mark *)
          Ok (bs, set_deferred_card_mark thread mr)
        else
          (* Do the card mark *)
          Ok (invalidate bs mr, thread)
  else Ok (bs, thread).

(** [CardTableModRefBS::on_thread_detach(JavaThread* thread)] *)
Definition on_thread_detach (g : Globals) (h : Heap)
    (bs : CardTableModRefBS) (thread : JavaThread)
    : result (CardTableModRefBS * JavaThread) :=
  flush_deferred_card_mark_barrier g h bs thread.

(** ** Predicates used in the statements *)

(** Every card of [ct] that has a byte in [lo, hi) is dirty. *)
Definition covered (ct : CardTable.t) (lo hi : Z) : Prop :=
  forall (i : nat) (c : CardTable.card),
    CardTable.query ct i = Some c ->
    intersects (CardTable.card_start ct i) (CardTable.card_end ct i) lo hi = true ->
    c = CardTable.dirty_card.

(** The region of the object at [obj]: its address and declared size. *)
Definition object_region (h : Heap) (obj : Z) : MemRegion.t :=
  MemRegion.make obj (to_size_t (size h obj)).

(** The three object checks of the flush: the region starts at an object
    outside the young generation whose size is the region's size. *)
Definition refers_to_old_object (h : Heap) (mr : MemRegion.t) : bool :=
  negb (is_in_young h (MemRegion.start mr))
  && is_oop h (MemRegion.start mr)
  && (MemRegion.word_size mr =? to_size_t (size h (MemRegion.start mr))).

(** The states in which no assertion of the flush fires. *)
Definition flush_admissible (g : Globals) (h : Heap)
    (bs : CardTableModRefBS) (thread : JavaThread) : bool :=
  if COMPILER2_or_JVMCI g then
    MemRegion.is_empty (deferred_card_mark thread)
    || (_defer_initial_card_mark bs && refers_to_old_object h (deferred_card_mark thread))
  else
    negb (_defer_initial_card_mark bs) && MemRegion.is_empty (deferred_card_mark thread).

(** ** The barrier as a transition system *)

(** The operations a mutator thread performs on the barrier. The heap is an
    argument of each call, since objects come and go between calls. *)
Inductive barrier_op : Type :=
| WriteRefArray (start count : Z)
| Invalidate (mr : MemRegion.t)
| WriteRegion (mr : MemRegion.t)
| OnSlowpathAllocationExit (h : Heap) (new_obj : Z)
| FlushDeferredCardMarkBarrier (h : Heap)
| OnThreadDetach (h : Heap).

Definition run_op (g : Globals) (op : barrier_op)
    (s : CardTableModRefBS * JavaThread) : result (CardTableModRefBS * JavaThread) :=
  let '(bs, thread) := s in
  match op with
  | WriteRefArray start count =>
      bs ← write_ref_array g bs start count; Ok (bs, thread)
  | Invalidate mr => Ok (invalidate bs mr, thread)
  | WriteRegion mr => Ok (write_region bs mr, thread)
  | OnSlowpathAllocationExit h new_obj =>
      on_slowpath_allocation_exit g h bs thread new_obj
  | FlushDeferredCardMarkBarrier h => flush_deferred_card_mark_barrier g h bs thread
  | OnThreadDetach h => on_thread_detach g h bs thread
  end.

(** The barrier is constructed over a card table and initialized once; the
    thread starts with an empty slot; then operations run. *)
Inductive reachable (g : Globals) (ct : CardTable.t)
  : CardTableModRefBS * JavaThread -> Prop :=
| reachable_initial bs :
    initialize g (new_CardTableModRefBS ct) = Ok bs ->
    reachable g ct (bs, new_JavaThread)
| reachable_step s op s' :
    reachable g ct s -> run_op g op s = Ok s' -> reachable g ct s'.

(** A non-empty slot needs the defer flag. *)
Definition deferred_only_if_enabled (s : CardTableModRefBS * JavaThread) : Prop :=
  MemRegion.is_empty (deferred_card_mark (snd s)) = false ->
  _defer_initial_card_mark (fst s) = true.

(** The value [initialize] gives the defer flag. *)
Definition defer_policy (g : Globals) (ct : CardTable.t) : bool :=
  COMPILER2_or_JVMCI g
  && (is_server_compilation_mode_vm g && ReduceInitialCardMarks g
      && can_elide_tlab_store_barriers g
      && (DeferInitialCardMark g || CardTable.scanned_concurrently ct)).

(** ** Concrete configurations *)

(** Cards of 512 bytes over a heap at address 0, as in the spec's example
    scenario; four cards, all clean, scanned concurrently. *)
Definition ex_card_table : CardTable.t :=
  CardTable.make 0 9 (replicate 4 CardTable.clean_card) true.

(** A server VM with the compiler present and compressed oops. *)
Definition ex_globals : Globals :=
  {| COMPILER2_or_JVMCI := true;
     UseCompressedOops := true;
     ReduceInitialCardMarks := true;
     DeferInitialCardMark := false;
     is_server_compilation_mode_vm := true;
     can_elide_tlab_store_barriers := true |}.

(** The same VM with [ReduceInitialCardMarks] switched off. *)
Definition ex_globals_off : Globals :=
  {| COMPILER2_or_JVMCI := true;
     UseCompressedOops := true;
     ReduceInitialCardMarks := false;
     DeferInitialCardMark := false;
     is_server_compilation_mode_vm := true;
     can_elide_tlab_store_barriers := true |}.

(** The same VM without compressed oops. *)
Definition ex_globals_wide : Globals :=
  {| COMPILER2_or_JVMCI := true;
     UseCompressedOops := false;
     ReduceInitialCardMarks := true;
     DeferInitialCardMark := false;
     is_server_compilation_mode_vm := true;
     can_elide_tlab_store_barriers := true |}.

(** A heap whose young generation is the first 1024 bytes; every object has
    four words, and the object at 1024 is a primitive-element array. *)
Definition ex_heap : Heap :=
  {| is_in_young := fun p => p <? 1024;
     is_typeArray := fun p => p =? 1024;
     size := fun _ => 4;
     is_oop := fun _ => true |}.

(** The barrier over [ex_card_table] with the defer flag set, and without. *)
Definition ex_barrier : CardTableModRefBS :=
  {| _defer_initial_card_mark := true; _card_table := ex_card_table |}.
Definition ex_barrier_immediate : CardTableModRefBS :=
  {| _defer_initial_card_mark := false; _card_table := ex_card_table |}.

(** A thread whose slot holds the object at 1536 (card 3). *)
Definition ex_armed_thread : JavaThread :=
  {| _deferred_card_mark := MemRegion.make 1536 4 |}.

(** A thread whose slot holds five words at 1536, one more than the object
    there has. *)
Definition ex_mismatched_thread : JavaThread :=
  {| _deferred_card_mark := MemRegion.make 1536 5 |}.

(** A heap that reports size 0 for every object. *)
Definition ex_heap_sizeless : Heap :=
  {| is_in_young := fun p => p <? 1024;
     is_typeArray := fun p => p =? 1024;
     size := fun _ => 0;
     is_oop := fun _ => true |}.

(** ** A mutator's run *)

(** A thread leaves the slow path once for each object of [objs], in order,
    over a heap that stays as it is. *)
Fixpoint allocate_all (g : Globals) (h : Heap) (objs : list Z)
    (s : CardTableModRefBS * JavaThread) : result (CardTableModRefBS * JavaThread) :=
  match objs with
  | [] => Ok s
  | new_obj :: rest =>
      s' ← on_slowpath_allocation_exit g h (fst s) (snd s) new_obj;
      allocate_all g h rest s'
  end.

(** The thread allocates the objects of [objs] and then detaches. *)
Definition allocate_then_detach (g : Globals) (h : Heap) (objs : list Z)
    (s : CardTableModRefBS * JavaThread) : result (CardTableModRefBS * JavaThread) :=
  s' ← allocate_all g h objs s;
  on_thread_detach g h (fst s') (snd s').

(** The object at [obj] is one whose initializing stores need a card mark:
    neither a primitive-element array nor in the young generation. *)
Definition needs_card_mark (h : Heap) (obj : Z) : bool :=
  negb (is_typeArray h obj || is_in_young h obj).

(** The card table's geometry and number of cards. *)
Definition same_geometry (ct ct' : CardTable.t) : Prop :=
  CardTable.base ct' = CardTable.base ct
  /\ CardTable.card_shift ct' = CardTable.card_shift ct
  /\ length (CardTable.byte_map ct') = length (CardTable.byte_map ct)
  /\ CardTable.scanned_concurrently ct' = CardTable.scanned_concurrently ct.

(** Every card that is dirty in [ct] is dirty in [ct']. *)
Definition keeps_dirty (ct ct' : CardTable.t) : Prop :=
  forall i : nat,
    CardTable.query ct i = Some CardTable.dirty_card ->
    CardTable.query ct' i = Some CardTable.dirty_card.

(** A listed object that needs a card mark is an object of positive size. *)
Definition markable (h : Heap) (obj : Z) : Prop :=
  needs_card_mark h obj = true -> is_oop h obj = true /\ 0 < size h obj < 2 ^ 64.

(** ** jstat's OptionFinder (src/unnamed/part_000) *)

Module OptionFinder.

(** What a call of [Parser.parse(option)] can do: return a format, return
    [null], throw one of the two exceptions that the search catches
    ([IOException], [ParserException]), or throw anything else. *)
Inductive parse_outcome (OptionFormat : Type) : Type :=
| Parsed (format : OptionFormat)
| Null
| Caught
| Thrown (exn : string).
Arguments Parsed {OptionFormat} format.
Arguments Null {OptionFormat}.
Arguments Caught {OptionFormat}.
Arguments Thrown {OptionFormat} exn.

(** A parser, as far as the search uses it. The search makes new parsers for
    every lookup, so a parser is the function from the option name to what
    its [parse] does. (The option name is [opt] below: [option] is taken.) *)
Definition Parser (OptionFormat : Type) : Type := string -> parse_outcome OptionFormat.

(** The classes the finder works with are not among the sources; their
    operations are taken as they are used: the factory that makes the
    parsers of a list of sources, [getSubFormat], the cast to
    [ColumnFormat], and [insertSubFormat], each of which may throw. *)
Class Collaborators (OptionFormat ColumnFormat : Type) : Type := {
  getOptionParsers_of : list string -> list (Parser OptionFormat);
  getSubFormat : OptionFormat -> Z -> result OptionFormat;
  as_ColumnFormat : OptionFormat -> result ColumnFormat;
  insertSubFormat : OptionFormat -> Z -> ColumnFormat -> result OptionFormat
}.

(** The finder holds the list of option sources. *)
Record t : Type := make { optionsSources : list string }.

Section Finder.
Context {OptionFormat ColumnFormat : Type} `{Collaborators OptionFormat ColumnFormat}.

(** [getOptionParsers()] *)
Definition getOptionParsers (finder : t) : list (Parser OptionFormat) :=
  getOptionParsers_of (optionsSources finder).

(** The loop of [getOptionFormat(String option)] over the parsers. *)
Fixpoint first_format (parsers : list (Parser OptionFormat)) (opt : string)
    : result (option OptionFormat) :=
  match parsers with
  | [] => Ok None
  | parser :: rest =>
      match parser opt with
      | Parsed format => Ok (Some format)
      | Null => first_format rest opt
      | Caught => first_format rest opt
      | Thrown exn => Fatal exn
      end
  end.

(** [getOptionFormat(String option)] *)
Definition getOptionFormat (finder : t) (opt : string) : result (option OptionFormat) :=
  first_format (getOptionParsers finder) opt.

(** [getOptionFormat(String option, boolean useTimestamp)] *)
Definition getOptionFormat_useTimestamp (finder : t) (opt : string)
    (useTimestamp : bool) : result (option OptionFormat) :=
  format ← getOptionFormat finder opt;
  match format with
  | Some format =>
      if useTimestamp then
        (* prepend the timestamp column as first column *)
        tof ← getOptionFormat finder "timestamp";
        match tof with
        | Some tof =>
            sub ← getSubFormat tof 0;
            cf ← as_ColumnFormat sub;
            format ← insertSubFormat format 0 cf;
            Ok (Some format)
        | None => Ok (Some format)
        end
      else Ok (Some format)
  | None => Ok None
  end.

End Finder.

(** The parser skips the option [opt]: it returns [null] or throws an exception
    that the search catches. *)
Definition skips {OptionFormat : Type} (opt : string) (parser : Parser OptionFormat)
    : Prop :=
  parser opt = Null \/ parser opt = Caught.

End OptionFinder.

(** Formats as lists of column names, for the examples: sub-format [i] is
    the column at [i], and inserting puts a column in front of the one at
    [i]. *)
#[global] Instance ex_formats : OptionFinder.Collaborators (list string) string := {
  getOptionParsers_of sources :=
    map (fun source opt =>
           if String.eqb source "broken" then OptionFinder.Caught
           else if String.eqb opt "gc" then OptionFinder.Parsed ["S0C"; "S1C"]
           else if String.eqb opt "timestamp" then OptionFinder.Parsed ["Timestamp"]
           else OptionFinder.Null)
        sources;
  getSubFormat format i :=
    match format !! Z.to_nat i with
    | Some column => Ok [column]
    | None => Fatal "IndexOutOfBoundsException"
    end;
  as_ColumnFormat format :=
    match format with
    | [column] => Ok column
    | _ => Fatal "ClassCastException"
    end;
  insertSubFormat format i column :=
    Ok (take (Z.to_nat i) format ++ column :: drop (Z.to_nat i) format)%list
}.

(** A finder over an unreadable source and the default options file. *)
Definition ex_finder : OptionFinder.t :=
  OptionFinder.make ["broken"; "jstat_options"].

(** Every card of [ct] that has a byte in [lo, hi) is dirty in [ct']. *)
Definition marked (ct ct' : CardTable.t) (lo hi : Z) : Prop :=
  forall (i : nat) (c : CardTable.card),
    CardTable.query ct i = Some c ->
    intersects (CardTable.card_start ct i) (CardTable.card_end ct i) lo hi = true ->
    CardTable.query ct' i = Some CardTable.dirty_card.

(** The card table after the regions of those objects of [objs] that need a
    card mark have been dirtied, in the order of the list. *)
Fixpoint dirty_objects (h : Heap) (objs : list Z) (ct : CardTable.t) : CardTable.t :=
  match objs with
  | [] => ct
  | obj :: rest =>
      dirty_objects h rest
        (if needs_card_mark h obj
         then CardTable.dirty_MemRegion ct (object_region h obj)
         else ct)
  end.

(** ** The slow path in two steps *)

(** Lines 157 to 172 of [flush_deferred_card_mark_barrier], in a build with
    the compiler: what the flush does about a pending region, up to its
    closing assertion. *)
Definition flush_pending (h : Heap) (bs : CardTableModRefBS) (thread : JavaThread)
    : result (CardTableModRefBS * JavaThread) :=
  let deferred := deferred_card_mark thread in
  if negb (MemRegion.is_empty deferred) then
    assert (_defer_initial_card_mark bs) "Otherwise should be empty" ;;
    let old_obj := MemRegion.start deferred in
    assert (negb (is_in_young h old_obj))
           "Else should have been filtered in on_slowpath_allocation_exit()" ;;
    assert (is_oop h old_obj) "Not an oop" ;;
    assert (MemRegion.word_size deferred =? to_size_t (size h old_obj))
           "Mismatch: multiple objects?" ;;
    Ok (write_region bs deferred, set_deferred_card_mark thread MemRegion.empty)
  else Ok (bs, thread).

(** What the slow path runs from there to the store: line 173, the closing
    assertion of the flush, and lines 125 to 140 of
    [on_slowpath_allocation_exit]. *)
Definition arm (h : Heap) (new_obj : Z) (s : CardTableModRefBS * JavaThread)
    : result (CardTableModRefBS * JavaThread) :=
  let '(bs, thread) := s in
  assert (MemRegion.is_empty (deferred_card_mark thread)) "invariant" ;;
  if is_typeArray h new_obj || is_in_young h new_obj then
    assert (MemRegion.is_empty (deferred_card_mark thread)) "Error" ;;
    Ok (bs, thread)
  else
    let mr := MemRegion.make new_obj (to_size_t (size h new_obj)) in
    assert (negb (MemRegion.is_empty mr)) "Error" ;;
    if _defer_initial_card_mark bs then
      Ok (bs, set_deferred_card_mark thread mr)
    else
      Ok (invalidate bs mr, thread).

(** ** Facts about the result monad *)

Lemma bind_Ok {A B} (m : result A) (f : A -> result B) (b : B) :
  m ≫= f = Ok b -> exists a, m = Ok a /\ f a = Ok b.
Proof. destruct m as [a|msg]; simpl; [eauto | discriminate]. Qed.

Lemma bind_Fatal {A B} (m : result A) (f : A -> result B) (msg : string) :
  m ≫= f = Fatal msg -> m = Fatal msg \/ exists a, m = Ok a /\ f a = Fatal msg.
Proof. destruct m as [a|msg']; simpl; [eauto | intros [= ->]; auto]. Qed.

Lemma assert_true (msg : string) {B} (k : result B) :
  (assert true msg ;; k) = k.
Proof. reflexivity. Qed.

Lemma assert_false (msg : string) {B} (k : result B) :
  (assert false msg ;; k) = Fatal msg.
Proof. reflexivity. Qed.

(** ** Alignment arithmetic *)

Lemma wrap_small z : 0 <= z < 2 ^ 64 -> wrap z = z.
Proof. intros Hz. unfold wrap. apply Z.mod_small. exact Hz. Qed.

Lemma align_down_bounds p a :
  0 < a -> align_down p a <= p < align_down p a + a.
Proof.
  intros Ha. unfold align_down.
  pose proof (Z.mod_pos_bound p a Ha). lia.
Qed.

Lemma align_down_nonneg p a : 0 < a -> 0 <= p -> 0 <= align_down p a.
Proof.
  intros Ha Hp. unfold align_down.
  pose proof (Z.mod_le p a Hp Ha). lia.
Qed.

Lemma align_down_aligned p a : 0 < a -> align_down p a mod a = 0.
Proof.
  intros Ha. unfold align_down.
  rewrite Zminus_mod_idemp_r. rewrite Z.sub_diag. apply Z.mod_0_l. lia.
Qed.

Lemma align_down_fixed p a : 0 < a -> (align_down p a = p <-> p mod a = 0).
Proof. intros Ha. unfold align_down. lia. Qed.

(** Rounding down to a heap word clears the three low bits, which is how an
    alignment mask computes it. *)
Lemma align_down_mask p :
  align_down p HeapWordSize = Z.land p (Z.lnot (HeapWordSize - 1)).
Proof.
  unfold align_down, HeapWordSize.
  rewrite <- Z.ldiff_land. change (8 - 1) with (Z.ones 3).
  rewrite Z.ldiff_ones_r by lia.
  rewrite Z.shiftr_div_pow2, Z.shiftl_mul_pow2 by lia.
  change (2 ^ 3) with 8. pose proof (Z.div_mod p 8). lia.
Qed.

Lemma align_up_no_wrap p a :
  0 < a -> 0 <= p -> p + a <= 2 ^ 64 ->
  align_up p a = align_down (p + (a - 1)) a.
Proof.
  intros Ha Hp Hfit. unfold align_up.
  apply wrap_small.
  pose proof (align_down_bounds (p + (a - 1)) a Ha). lia.
Qed.

Lemma align_up_bounds p a :
  0 < a -> 0 <= p -> p + a <= 2 ^ 64 ->
  p <= align_up p a < p + a /\ align_up p a mod a = 0.
Proof.
  intros Ha Hp Hfit. rewrite align_up_no_wrap by assumption.
  pose proof (align_down_bounds (p + (a - 1)) a Ha).
  split; [lia | by apply align_down_aligned].
Qed.

(** ** Facts about the card table *)

Lemma intersects_spec lo1 hi1 lo2 hi2 :
  intersects lo1 hi1 lo2 hi2 = true <-> exists x, lo1 <= x < hi1 /\ lo2 <= x < hi2.
Proof.
  unfold intersects. rewrite Z.ltb_lt. split.
  - intros Hlt. exists (Z.max lo1 lo2). lia.
  - intros (x & H1 & H2). lia.
Qed.

Lemma intersects_mono lo1 hi1 lo2 hi2 lo2' hi2' :
  lo2' <= lo2 -> hi2 <= hi2' ->
  intersects lo1 hi1 lo2 hi2 = true -> intersects lo1 hi1 lo2' hi2' = true.
Proof. unfold intersects. rewrite !Z.ltb_lt. lia. Qed.

Section CardTableFacts.
Variable ct : CardTable.t.
Variable mr : MemRegion.t.

Lemma query_dirty_MemRegion (i : nat) :
  CardTable.query (CardTable.dirty_MemRegion ct mr) i =
  (fun c => if CardTable.card_overlaps ct i mr then CardTable.dirty_card else c)
    <$> CardTable.query ct i.
Proof. unfold CardTable.query. simpl. apply list_lookup_imap. Qed.

Lemma card_overlaps_dirty_MemRegion (i : nat) (mr' : MemRegion.t) :
  CardTable.card_overlaps (CardTable.dirty_MemRegion ct mr) i mr' =
  CardTable.card_overlaps ct i mr'.
Proof. reflexivity. Qed.

Lemma dirty_MemRegion_covers :
  covered (CardTable.dirty_MemRegion ct mr) (MemRegion.start mr) (MemRegion.end_ mr).
Proof.
  intros i c Hq Hi. rewrite query_dirty_MemRegion in Hq.
  destruct (CardTable.query ct i) as [c0|]; simpl in Hq; [|discriminate].
  change (CardTable.card_overlaps ct i mr = true) in Hi.
  rewrite Hi in Hq. congruence.
Qed.

Lemma dirty_MemRegion_keeps_dirty (i : nat) :
  CardTable.query ct i = Some CardTable.dirty_card ->
  CardTable.query (CardTable.dirty_MemRegion ct mr) i = Some CardTable.dirty_card.
Proof.
  intros Hq. rewrite query_dirty_MemRegion, Hq. simpl.
  by destruct (CardTable.card_overlaps ct i mr).
Qed.

Lemma dirty_MemRegion_idempotent :
  CardTable.dirty_MemRegion (CardTable.dirty_MemRegion ct mr) mr =
  CardTable.dirty_MemRegion ct mr.
Proof.
  unfold CardTable.dirty_MemRegion at 1. simpl.
  unfold CardTable.dirty_MemRegion. f_equal.
  apply list_eq. intros i. rewrite !list_lookup_imap.
  rewrite card_overlaps_dirty_MemRegion.
  destruct (CardTable.byte_map ct !! i) as [c|]; simpl; [|done].
  by destruct (CardTable.card_overlaps ct i mr).
Qed.

Lemma dirty_MemRegion_already_dirty :
  covered ct (MemRegion.start mr) (MemRegion.end_ mr) ->
  CardTable.dirty_MemRegion ct mr = ct.
Proof.
  intros Hcov. destruct ct as [b s m sc] eqn:Hct.
  unfold CardTable.dirty_MemRegion. simpl. f_equal.
  apply list_eq. intros i. rewrite list_lookup_imap.
  destruct (m !! i) as [c|] eqn:Hm; simpl; [|done].
  destruct (CardTable.card_overlaps _ i mr) eqn:Ho; [|done].
  f_equal. symmetry. apply (Hcov i c); [exact Hm | exact Ho].
Qed.

End CardTableFacts.

Lemma covered_mono ct lo hi lo' hi' :
  lo <= lo' -> hi' <= hi -> covered ct lo hi -> covered ct lo' hi'.
Proof.
  intros Hlo Hhi Hcov i c Hq Hi. apply (Hcov i c Hq).
  revert Hi. by apply intersects_mono.
Qed.

Lemma covered_dirty_MemRegion ct mr lo hi :
  covered ct lo hi -> covered (CardTable.dirty_MemRegion ct mr) lo hi.
Proof.
  intros Hcov i c Hq Hi. rewrite query_dirty_MemRegion in Hq.
  destruct (CardTable.query ct i) as [c0|] eqn:Hq0; simpl in Hq; [|discriminate].
  destruct (CardTable.card_overlaps ct i mr); [congruence|].
  injection Hq as <-. by apply (Hcov i c0).
Qed.

(** "Every heap address maps to exactly one card": the card whose bytes
    contain [p] is the one with index [index_for ct p]. *)
Lemma index_for_card ct (i : nat) (p : Z) :
  0 <= CardTable.card_shift ct ->
  CardTable.index_for ct p = Z.of_nat i <->
  CardTable.card_start ct i <= p < CardTable.card_end ct i.
Proof.
  intros Hshift.
  unfold CardTable.index_for, CardTable.card_end, CardTable.card_start, CardTable.card_size.
  rewrite Z.shiftr_div_pow2 by exact Hshift.
  assert (0 < 2 ^ CardTable.card_shift ct) as Hpos by (apply Z.pow_pos_nonneg; lia).
  set (cs := 2 ^ CardTable.card_shift ct) in *.
  split.
  - intros <-. pose proof (Z.mul_div_le (p - CardTable.base ct) cs Hpos).
    pose proof (Z.mul_succ_div_gt (p - CardTable.base ct) cs Hpos). lia.
  - intros [Hlo Hhi]. symmetry. apply (Z.div_unique_pos _ _ _ (p - CardTable.base ct - Z.of_nat i * cs)); lia.
Qed.

Lemma covered_address ct lo hi (p : Z) (i : nat) (c : CardTable.card) :
  0 <= CardTable.card_shift ct ->
  covered ct lo hi -> lo <= p < hi ->
  CardTable.index_for ct p = Z.of_nat i ->
  CardTable.query ct i = Some c -> c = CardTable.dirty_card.
Proof.
  intros Hshift Hcov Hp Hidx Hq. apply (Hcov i c Hq).
  apply intersects_spec. exists p. split; [|exact Hp].
  by apply index_for_card.
Qed.

(** ** Facts about [write_ref_array] *)

Lemma heapOopSize_cases g :
  (UseCompressedOops g = true /\ heapOopSize g = 4) \/
  (UseCompressedOops g = false /\ heapOopSize g = 8).
Proof. unfold heapOopSize. destruct (UseCompressedOops g); auto. Qed.

Lemma write_end_no_wrap g start count :
  0 <= start -> 0 <= count ->
  start + count * heapOopSize g < 2 ^ 64 ->
  write_end g start count = start + count * heapOopSize g.
Proof.
  intros Hs Hc Hfit. unfold write_end.
  assert (0 <= count * heapOopSize g) as Hbytes.
  { destruct (heapOopSize_cases g) as [[_ ->]|[_ ->]]; lia. }
  rewrite (wrap_small (count * heapOopSize g)) by lia.
  apply wrap_small. lia.
Qed.

Lemma of_range_aligned s e :
  s mod HeapWordSize = 0 -> e mod HeapWordSize = 0 -> 0 <= e - s < 2 ^ 64 ->
  MemRegion.start (MemRegion.of_range s e) = s /\
  MemRegion.end_ (MemRegion.of_range s e) = e.
Proof.
  intros Hs He Hse. unfold MemRegion.of_range, MemRegion.end_. simpl.
  split; [reflexivity|]. rewrite wrap_small by exact Hse.
  unfold HeapWordSize in *.
  pose proof (Z.div_mod s 8). pose proof (Z.div_mod e 8).
  assert ((e - s) mod 8 = 0) as Hd.
  { rewrite Zminus_mod, Hs, He. reflexivity. }
  pose proof (Z.div_mod (e - s) 8). lia.
Qed.

Lemma align_up_fixed p :
  0 <= p -> p + HeapWordSize <= 2 ^ 64 -> p mod HeapWordSize = 0 ->
  align_up p HeapWordSize = p.
Proof.
  intros Hp Hfit Hmod.
  rewrite align_up_no_wrap by (try reflexivity; assumption).
  unfold align_down, HeapWordSize in *. Z.div_mod_to_equations. lia.
Qed.


(** ** Facts about the flush *)

Section Flush.
Variables (g : Globals) (h : Heap) (bs : CardTableModRefBS) (thread : JavaThread).

Lemma flush_empty :
  COMPILER2_or_JVMCI g = true ->
  MemRegion.is_empty (deferred_card_mark thread) = true ->
  flush_deferred_card_mark_barrier g h bs thread = Ok (bs, thread).
Proof.
  intros HC He. unfold flush_deferred_card_mark_barrier.
  rewrite HC, He. simpl. rewrite He. reflexivity.
Qed.

Lemma flush_armed_ok :
  COMPILER2_or_JVMCI g = true ->
  MemRegion.is_empty (deferred_card_mark thread) = false ->
  _defer_initial_card_mark bs = true ->
  refers_to_old_object h (deferred_card_mark thread) = true ->
  flush_deferred_card_mark_barrier g h bs thread =
  Ok (write_region bs (deferred_card_mark thread),
      set_deferred_card_mark thread MemRegion.empty).
Proof.
  intros HC He Hd Hr. unfold flush_deferred_card_mark_barrier.
  unfold refers_to_old_object in Hr.
  apply andb_true_iff in Hr as [Hr Hsz]. apply andb_true_iff in Hr as [Hy Ho].
  rewrite HC, He, Hd. simpl. rewrite Hy, Ho, Hsz. reflexivity.
Qed.

Lemma flush_armed_fatal :
  COMPILER2_or_JVMCI g = true ->
  MemRegion.is_empty (deferred_card_mark thread) = false ->
  _defer_initial_card_mark bs && refers_to_old_object h (deferred_card_mark thread) = false ->
  exists msg, flush_deferred_card_mark_barrier g h bs thread = Fatal msg.
Proof.
  intros HC He Hr. unfold flush_deferred_card_mark_barrier.
  unfold refers_to_old_object in Hr.
  rewrite HC, He. simpl.
  destruct (_defer_initial_card_mark bs); simpl in *; [|eauto].
  destruct (is_in_young h _); simpl in *; [eauto|].
  destruct (is_oop h _); simpl in *; [|eauto].
  rewrite Hr. simpl. eauto.
Qed.

Lemma flush_without_compiler :
  COMPILER2_or_JVMCI g = false ->
  flush_deferred_card_mark_barrier g h bs thread =
  (assert (negb (_defer_initial_card_mark bs)) "Should be false" ;;
   assert (MemRegion.is_empty (deferred_card_mark thread)) "Should be empty" ;;
   Ok (bs, thread)).
Proof. intros HC. unfold flush_deferred_card_mark_barrier. by rewrite HC. Qed.

Lemma flush_is_Ok :
  is_Ok (flush_deferred_card_mark_barrier g h bs thread) = flush_admissible g h bs thread.
Proof.
  unfold flush_admissible.
  destruct (COMPILER2_or_JVMCI g) eqn:HC.
  - destruct (MemRegion.is_empty (deferred_card_mark thread)) eqn:He.
    + by rewrite flush_empty.
    + simpl. destruct (_defer_initial_card_mark bs
                       && refers_to_old_object h (deferred_card_mark thread)) eqn:Hr.
      * apply andb_true_iff in Hr as [Hd Hr]. by rewrite flush_armed_ok.
      * by destruct (flush_armed_fatal HC He Hr) as [msg ->].
  - rewrite flush_without_compiler by exact HC.
    destruct (_defer_initial_card_mark bs); [done|]. simpl.
    by destruct (MemRegion.is_empty (deferred_card_mark thread)).
Qed.

Lemma flush_Ok_cases bs' thread' :
  flush_deferred_card_mark_barrier g h bs thread = Ok (bs', thread') ->
  (MemRegion.is_empty (deferred_card_mark thread) = true /\ bs' = bs /\ thread' = thread)
  \/ (COMPILER2_or_JVMCI g = true
      /\ MemRegion.is_empty (deferred_card_mark thread) = false
      /\ _defer_initial_card_mark bs = true
      /\ refers_to_old_object h (deferred_card_mark thread) = true
      /\ bs' = write_region bs (deferred_card_mark thread)
      /\ thread' = set_deferred_card_mark thread MemRegion.empty).
Proof.
  intros Hf.
  destruct (COMPILER2_or_JVMCI g) eqn:HC.
  - destruct (MemRegion.is_empty (deferred_card_mark thread)) eqn:He.
    + rewrite flush_empty in Hf by assumption. injection Hf as <- <-. auto.
    + destruct (_defer_initial_card_mark bs
                && refers_to_old_object h (deferred_card_mark thread)) eqn:Hr.
      * apply andb_true_iff in Hr as [Hd Hr].
        rewrite flush_armed_ok in Hf by assumption. injection Hf as <- <-.
        right. auto 10.
      * destruct (flush_armed_fatal HC He Hr) as [msg Hm]. congruence.
  - rewrite flush_without_compiler in Hf by exact HC.
    destruct (_defer_initial_card_mark bs); [discriminate|]. simpl in Hf.
    destruct (MemRegion.is_empty (deferred_card_mark thread)); [|discriminate].
    injection Hf as <- <-. auto.
Qed.

Lemma covered_empty_region ct (mr : MemRegion.t) :
  MemRegion.is_empty mr = true -> covered ct (MemRegion.start mr) (MemRegion.end_ mr).
Proof.
  unfold MemRegion.is_empty, MemRegion.end_. rewrite Z.eqb_eq. intros Hz i c _ Hi.
  rewrite Hz in Hi. unfold intersects in Hi. apply Z.ltb_lt in Hi. lia.
Qed.

Lemma flush_Ok_post bs' thread' :
  flush_deferred_card_mark_barrier g h bs thread = Ok (bs', thread') ->
  MemRegion.is_empty (deferred_card_mark thread') = true
  /\ _defer_initial_card_mark bs' = _defer_initial_card_mark bs
  /\ covered (_card_table bs') (MemRegion.start (deferred_card_mark thread))
             (MemRegion.end_ (deferred_card_mark thread)).
Proof.
  intros Hf. destruct (flush_Ok_cases _ _ Hf)
    as [(He & -> & ->) | (_ & _ & _ & _ & -> & ->)].
  - repeat split; [exact He|]. by apply covered_empty_region.
  - repeat split. apply dirty_MemRegion_covers.
Qed.

End Flush.

(** ** Facts about the allocation exit *)

Lemma object_region_proper h obj :
  0 < size h obj < 2 ^ 64 ->
  object_region h obj = MemRegion.make obj (size h obj)
  /\ MemRegion.is_empty (object_region h obj) = false.
Proof.
  intros Hsz. unfold object_region, to_size_t. rewrite wrap_small by lia.
  split; [reflexivity|]. unfold MemRegion.is_empty. simpl. apply Z.eqb_neq. lia.
Qed.

Section AllocationExit.
Variables (g : Globals) (h : Heap) (bs : CardTableModRefBS) (thread : JavaThread).
Variable new_obj : Z.

Lemma slowpath_switch_off :
  ReduceInitialCardMarks g = false ->
  on_slowpath_allocation_exit g h bs thread new_obj = Ok (bs, thread).
Proof.
  intros HR. unfold on_slowpath_allocation_exit. rewrite HR.
  by destruct (COMPILER2_or_JVMCI g).
Qed.

Lemma slowpath_without_compiler :
  COMPILER2_or_JVMCI g = false ->
  on_slowpath_allocation_exit g h bs thread new_obj = Ok (bs, thread).
Proof. intros HC. unfold on_slowpath_allocation_exit. by rewrite HC. Qed.

Hypothesis HC : COMPILER2_or_JVMCI g = true.
Hypothesis HR : ReduceInitialCardMarks g = true.

Lemma slowpath_flush_fatal msg :
  flush_deferred_card_mark_barrier g h bs thread = Fatal msg ->
  on_slowpath_allocation_exit g h bs thread new_obj = Fatal msg.
Proof.
  intros Hf. unfold on_slowpath_allocation_exit. rewrite HC, HR, Hf. reflexivity.
Qed.

Lemma slowpath_after_flush bs1 thread1 :
  flush_deferred_card_mark_barrier g h bs thread = Ok (bs1, thread1) ->
  on_slowpath_allocation_exit g h bs thread new_obj =
  if is_typeArray h new_obj || is_in_young h new_obj then Ok (bs1, thread1)
  else if MemRegion.is_empty (object_region h new_obj) then Fatal "Error"
  else if _defer_initial_card_mark bs1
       then Ok (bs1, set_deferred_card_mark thread1 (object_region h new_obj))
       else Ok (invalidate bs1 (object_region h new_obj), thread1).
Proof.
  intros Hf. destruct (flush_Ok_post _ _ _ _ _ _ Hf) as (He & _ & _).
  unfold on_slowpath_allocation_exit. rewrite HC, HR, Hf. simpl.
  destruct (is_typeArray h new_obj || is_in_young h new_obj).
  - rewrite He. reflexivity.
  - fold (object_region h new_obj).
    by destruct (MemRegion.is_empty (object_region h new_obj)).
Qed.

End AllocationExit.

Lemma slowpath_Ok_cases g h bs thread new_obj bs' thread' :
  on_slowpath_allocation_exit g h bs thread new_obj = Ok (bs', thread') ->
  ((COMPILER2_or_JVMCI g = false \/ ReduceInitialCardMarks g = false)
   /\ bs' = bs /\ thread' = thread)
  \/ (COMPILER2_or_JVMCI g = true /\ ReduceInitialCardMarks g = true
      /\ exists bs1 thread1,
           flush_deferred_card_mark_barrier g h bs thread = Ok (bs1, thread1)
           /\ ((bs' = bs1 /\ thread' = thread1)
               \/ (_defer_initial_card_mark bs1 = true /\ bs' = bs1
                   /\ thread' = set_deferred_card_mark thread1 (object_region h new_obj)
                   /\ MemRegion.is_empty (object_region h new_obj) = false)
               \/ (_defer_initial_card_mark bs1 = false
                   /\ bs' = invalidate bs1 (object_region h new_obj)
                   /\ thread' = thread1))).
Proof.
  intros Hs.
  destruct (COMPILER2_or_JVMCI g) eqn:HC.
  2:{ rewrite slowpath_without_compiler in Hs by exact HC.
      injection Hs as <- <-. left. auto. }
  destruct (ReduceInitialCardMarks g) eqn:HR.
  2:{ rewrite slowpath_switch_off in Hs by exact HR.
      injection Hs as <- <-. left. auto. }
  right. do 2 (split; [reflexivity|]).
  destruct (flush_deferred_card_mark_barrier g h bs thread) as [[bs1 thread1]|msg] eqn:Hf.
  2:{ rewrite (slowpath_flush_fatal g h bs thread new_obj HC HR msg Hf) in Hs.
      discriminate. }
  exists bs1, thread1. split; [reflexivity|].
  rewrite (slowpath_after_flush g h bs thread new_obj HC HR bs1 thread1 Hf) in Hs.
  destruct (is_typeArray h new_obj || is_in_young h new_obj).
  { injection Hs as <- <-. auto. }
  destruct (MemRegion.is_empty (object_region h new_obj)) eqn:He; [discriminate|].
  destruct (_defer_initial_card_mark bs1) eqn:Hd; injection Hs as <- <-; auto 10.
Qed.

(** ** Facts about the transition system *)

Lemma write_ref_array_Ok `{BarrierSet B} g (bs bs' : B) start count :
  write_ref_array g bs start count = Ok bs' ->
  exists mr, bs' = write_ref_array_work bs mr.
Proof.
  unfold write_ref_array. intros Hw.
  apply bind_Ok in Hw as (_ & _ & Hw). apply bind_Ok in Hw as (_ & _ & Hw).
  injection Hw as <-. eauto.
Qed.

Lemma run_op_defer_flag g op bs thread bs' thread' :
  run_op g op (bs, thread) = Ok (bs', thread') ->
  _defer_initial_card_mark bs' = _defer_initial_card_mark bs.
Proof.
  destruct op as [start count|mr|mr|h new_obj|h|h]; simpl; intros Hr.
  - apply bind_Ok in Hr as (bs1 & Hw & Hr). injection Hr as <- <-.
    by destruct (write_ref_array_Ok _ _ _ _ _ Hw) as [mr ->].
  - by injection Hr as <- <-.
  - by injection Hr as <- <-.
  - destruct (slowpath_Ok_cases _ _ _ _ _ _ _ Hr)
      as [(_ & -> & ->) | (_ & _ & bs1 & thread1 & Hf & Hcases)]; [done|].
    destruct (flush_Ok_post _ _ _ _ _ _ Hf) as (_ & Hd & _).
    by destruct Hcases as [(-> & _) | [(_ & -> & _) | (_ & -> & _)]].
  - by destruct (flush_Ok_post _ _ _ _ _ _ Hr) as (_ & Hd & _).
  - by destruct (flush_Ok_post _ _ _ _ _ _ Hr) as (_ & Hd & _).
Qed.

Lemma run_op_slot g op bs thread bs' thread' :
  run_op g op (bs, thread) = Ok (bs', thread') ->
  MemRegion.is_empty (deferred_card_mark thread') = false ->
  MemRegion.is_empty (deferred_card_mark thread) = false
  \/ _defer_initial_card_mark bs = true.
Proof.
  destruct op as [start count|mr|mr|h new_obj|h|h]; simpl; intros Hr Hne.
  - apply bind_Ok in Hr as (bs1 & Hw & Hr). injection Hr as <- <-. auto.
  - injection Hr as <- <-. auto.
  - injection Hr as <- <-. auto.
  - destruct (slowpath_Ok_cases _ _ _ _ _ _ _ Hr)
      as [(_ & -> & ->) | (_ & _ & bs1 & thread1 & Hf & Hcases)]; [auto|].
    destruct (flush_Ok_post _ _ _ _ _ _ Hf) as (He & Hd & _).
    destruct Hcases as [(-> & ->) | [(Hd1 & -> & -> & _) | (_ & -> & ->)]];
      [congruence | right; congruence | congruence].
  - destruct (flush_Ok_post _ _ _ _ _ _ Hr) as (He & _ & _). congruence.
  - destruct (flush_Ok_post _ _ _ _ _ _ Hr) as (He & _ & _). congruence.
Qed.

Lemma run_op_preserves g op s s' :
  run_op g op s = Ok s' -> deferred_only_if_enabled s -> deferred_only_if_enabled s'.
Proof.
  destruct s as [bs thread], s' as [bs' thread']. unfold deferred_only_if_enabled. simpl.
  intros Hr Hinv Hne. rewrite (run_op_defer_flag _ _ _ _ _ _ Hr).
  destruct (run_op_slot _ _ _ _ _ _ Hr Hne); auto.
Qed.

Lemma initialize_Ok g ct bs :
  initialize g (new_CardTableModRefBS ct) = Ok bs ->
  _defer_initial_card_mark bs = defer_policy g ct /\ _card_table bs = ct.
Proof.
  unfold initialize, initialize_deferred_card_mark_barriers, defer_policy.
  destruct (COMPILER2_or_JVMCI g); simpl; intros [= <-]; auto.
Qed.

Lemma reachable_invariant g ct s :
  reachable g ct s ->
  deferred_only_if_enabled s /\ _defer_initial_card_mark (fst s) = defer_policy g ct.
Proof.
  induction 1 as [bs Hi | s op s' Hreach [IH1 IH2] Hr].
  - split; [intros Hne; discriminate Hne|]. simpl. by apply initialize_Ok in Hi as [-> _].
  - split; [by apply (run_op_preserves g op s)|].
    destruct s as [bs thread], s' as [bs' thread']. simpl in *.
    rewrite <- IH2. by apply (run_op_defer_flag g op bs thread bs' thread').
Qed.

(** ** More facts about the card table *)

Lemma dirty_MemRegion_geometry ct mr :
  same_geometry ct (CardTable.dirty_MemRegion ct mr).
Proof.
  unfold same_geometry, CardTable.dirty_MemRegion. simpl.
  rewrite length_imap. auto.
Qed.

Lemma same_geometry_refl ct : same_geometry ct ct.
Proof. unfold same_geometry. auto. Qed.

Lemma same_geometry_trans ct1 ct2 ct3 :
  same_geometry ct1 ct2 -> same_geometry ct2 ct3 -> same_geometry ct1 ct3.
Proof.
  unfold same_geometry. intros (? & ? & ? & ?) (? & ? & ? & ?).
  repeat split; congruence.
Qed.

Lemma query_dirty_MemRegion_outside ct mr (i : nat) :
  CardTable.card_overlaps ct i mr = false ->
  CardTable.query (CardTable.dirty_MemRegion ct mr) i = CardTable.query ct i.
Proof.
  intros Ho. rewrite query_dirty_MemRegion, Ho.
  by destruct (CardTable.query ct i).
Qed.

Lemma dirty_MemRegion_empty ct mr :
  MemRegion.is_empty mr = true -> CardTable.dirty_MemRegion ct mr = ct.
Proof.
  intros He. apply dirty_MemRegion_already_dirty. by apply covered_empty_region.
Qed.

Lemma dirty_MemRegion_comm ct mr1 mr2 :
  CardTable.dirty_MemRegion (CardTable.dirty_MemRegion ct mr1) mr2 =
  CardTable.dirty_MemRegion (CardTable.dirty_MemRegion ct mr2) mr1.
Proof.
  unfold CardTable.dirty_MemRegion. simpl. f_equal.
  apply list_eq. intros i. rewrite !list_lookup_imap.
  destruct (CardTable.byte_map ct !! i) as [c|]; simpl; [|done].
  f_equal.
  change (CardTable.card_overlaps
            (CardTable.make (CardTable.base ct) (CardTable.card_shift ct)
               (imap (fun i c => if CardTable.card_overlaps ct i mr1
                                 then CardTable.dirty_card else c) (CardTable.byte_map ct))
               (CardTable.scanned_concurrently ct)) i mr2)
    with (CardTable.card_overlaps ct i mr2).
  change (CardTable.card_overlaps
            (CardTable.make (CardTable.base ct) (CardTable.card_shift ct)
               (imap (fun i c => if CardTable.card_overlaps ct i mr2
                                 then CardTable.dirty_card else c) (CardTable.byte_map ct))
               (CardTable.scanned_concurrently ct)) i mr1)
    with (CardTable.card_overlaps ct i mr1).
  by destruct (CardTable.card_overlaps ct i mr1), (CardTable.card_overlaps ct i mr2).
Qed.

(** A card boundary of a word-aligned table with cards of at least a word
    is a word boundary. *)
Lemma card_start_aligned ct (i : nat) :
  CardTable.base ct mod HeapWordSize = 0 -> 3 <= CardTable.card_shift ct ->
  CardTable.card_start ct i mod HeapWordSize = 0
  /\ CardTable.card_end ct i mod HeapWordSize = 0.
Proof.
  intros Hb Hs.
  assert (CardTable.card_size ct mod HeapWordSize = 0) as Hcs.
  { unfold CardTable.card_size, HeapWordSize.
    replace (CardTable.card_shift ct) with (3 + (CardTable.card_shift ct - 3)) by lia.
    rewrite Z.pow_add_r by lia. change (2 ^ 3) with 8.
    rewrite Z.mul_comm. apply Z_mod_mult. }
  assert (CardTable.card_start ct i mod HeapWordSize = 0) as Hst.
  { unfold CardTable.card_start.
    rewrite Z.add_mod, Hb, Z.mul_mod, Hcs by (unfold HeapWordSize; lia).
    rewrite Z.mul_0_r. reflexivity. }
  split; [exact Hst|].
  unfold CardTable.card_end.
  rewrite Z.add_mod, Hst, Hcs by (unfold HeapWordSize; lia). reflexivity.
Qed.

(** ** More facts about [write_ref_array] *)

Lemma write_ref_array_region `{BarrierSet B} g (bs bs' : B) start count :
  write_ref_array g bs start count = Ok bs' ->
  bs' = write_ref_array_work bs
          (MemRegion.of_range (align_down start HeapWordSize)
             (align_up (write_end g start count) HeapWordSize)).
Proof.
  unfold write_ref_array. intros Hw.
  apply bind_Ok in Hw as (_ & _ & Hw). apply bind_Ok in Hw as (_ & _ & Hw).
  by injection Hw as <-.
Qed.

(** The region of a write that does not wrap. *)
Lemma write_region_bounds g start count :
  0 <= start -> 0 <= count ->
  start + count * heapOopSize g + HeapWordSize <= 2 ^ 64 ->
  let mr := MemRegion.of_range (align_down start HeapWordSize)
              (align_up (write_end g start count) HeapWordSize) in
  MemRegion.start mr = align_down start HeapWordSize
  /\ MemRegion.end_ mr = align_up (start + count * heapOopSize g) HeapWordSize.
Proof.
  intros Hs Hc Hfit.
  assert (0 < HeapWordSize) as Hw by reflexivity.
  assert (0 <= count * heapOopSize g) as Hbytes.
  { destruct (heapOopSize_cases g) as [[_ ->]|[_ ->]]; lia. }
  rewrite write_end_no_wrap by (unfold HeapWordSize in *; lia).
  set (e := start + count * heapOopSize g) in *.
  destruct (align_down_bounds start HeapWordSize Hw) as [Hd1 Hd2].
  pose proof (align_down_aligned start HeapWordSize Hw) as Hd3.
  pose proof (align_down_nonneg start HeapWordSize Hw Hs) as Hd4.
  destruct (align_up_bounds e HeapWordSize Hw) as [[Hu1 Hu2] Hu3]; [lia | lia |].
  apply of_range_aligned; [assumption | assumption | unfold HeapWordSize in *; lia].
Qed.

(** ** Facts about what the operations keep *)

Lemma keeps_dirty_refl ct : keeps_dirty ct ct.
Proof. intros i Hq. exact Hq. Qed.

Lemma keeps_dirty_trans ct1 ct2 ct3 :
  keeps_dirty ct1 ct2 -> keeps_dirty ct2 ct3 -> keeps_dirty ct1 ct3.
Proof. intros H12 H23 i Hq. apply H23, H12, Hq. Qed.

Lemma invalidate_grows bs mr :
  same_geometry (_card_table bs) (_card_table (invalidate bs mr))
  /\ keeps_dirty (_card_table bs) (_card_table (invalidate bs mr)).
Proof.
  split; [apply dirty_MemRegion_geometry|].
  intros i. apply dirty_MemRegion_keeps_dirty.
Qed.

Lemma flush_grows g h bs thread bs' thread' :
  flush_deferred_card_mark_barrier g h bs thread = Ok (bs', thread') ->
  same_geometry (_card_table bs) (_card_table bs')
  /\ keeps_dirty (_card_table bs) (_card_table bs').
Proof.
  intros Hf.
  destruct (flush_Ok_cases _ _ _ _ _ _ Hf) as [(_ & -> & _) | (_ & _ & _ & _ & -> & _)].
  - split; [apply same_geometry_refl | apply keeps_dirty_refl].
  - apply invalidate_grows.
Qed.

(** ** Facts used by the claims about the protocol *)

Lemma covered_marked ct ct' lo hi :
  same_geometry ct ct' -> covered ct' lo hi -> marked ct ct' lo hi.
Proof.
  intros (Hb & Hs & Hl & _) Hcov i c Hq Hi.
  unfold CardTable.query in *.
  destruct (CardTable.byte_map ct' !! i) as [c'|] eqn:Hq'.
  - f_equal. apply (Hcov i c' Hq').
    unfold CardTable.card_end, CardTable.card_start, CardTable.card_size in *.
    by rewrite Hb, Hs.
  - apply lookup_lt_Some in Hq. apply lookup_ge_None in Hq'. lia.
Qed.

Lemma write_region_marks bs mr :
  marked (_card_table bs) (_card_table (write_region bs mr))
         (MemRegion.start mr) (MemRegion.end_ mr)
  /\ covered (_card_table (write_region bs mr)) (MemRegion.start mr) (MemRegion.end_ mr)
  /\ same_geometry (_card_table bs) (_card_table (write_region bs mr))
  /\ keeps_dirty (_card_table bs) (_card_table (write_region bs mr)).
Proof.
  destruct (invalidate_grows bs mr) as [Hg Hk].
  pose proof (dirty_MemRegion_covers (_card_table bs) mr) as Hcov.
  split; [by apply covered_marked|]. auto.
Qed.

(** Where the policy gives a flag that is off, a reached state has an empty
    slot and the flush returns it as it is. *)
Lemma reachable_policy_off g ct bs thread h :
  defer_policy g ct = false ->
  reachable g ct (bs, thread) ->
  MemRegion.is_empty (deferred_card_mark thread) = true
  /\ flush_deferred_card_mark_barrier g h bs thread = Ok (bs, thread).
Proof.
  intros Hoff Hreach.
  destruct (reachable_invariant g ct _ Hreach) as [Hinv Hflag].
  unfold deferred_only_if_enabled in Hinv. simpl in Hinv, Hflag.
  rewrite Hoff in Hflag.
  assert (MemRegion.is_empty (deferred_card_mark thread) = true) as He.
  { destruct (MemRegion.is_empty (deferred_card_mark thread)); [reflexivity|].
    specialize (Hinv eq_refl). congruence. }
  split; [exact He|].
  destruct (COMPILER2_or_JVMCI g) eqn:HC.
  - by apply flush_empty.
  - rewrite flush_without_compiler by exact HC. by rewrite Hflag, He.
Qed.

Lemma policy_off g ct :
  COMPILER2_or_JVMCI g = false \/ ReduceInitialCardMarks g = false ->
  defer_policy g ct = false.
Proof.
  unfold defer_policy. intros [-> | ->]; [reflexivity|].
  rewrite andb_false_r. simpl. apply andb_false_r.
Qed.

(** The flush is its treatment of the pending region followed by its
    closing assertion, and the allocation exit goes on from there. *)
Lemma slowpath_in_two_steps g h bs thread new_obj :
  COMPILER2_or_JVMCI g = true -> ReduceInitialCardMarks g = true ->
  on_slowpath_allocation_exit g h bs thread new_obj
  = flush_pending h bs thread ≫= arm h new_obj.
Proof.
  intros HC HR.
  unfold on_slowpath_allocation_exit, flush_deferred_card_mark_barrier, flush_pending, arm.
  rewrite HC, HR. unfold mbind, result_bind, assert. simpl.
  destruct (MemRegion.is_empty (deferred_card_mark thread)) eqn:He; simpl.
  - rewrite ?He. simpl.
    destruct (is_typeArray h new_obj || is_in_young h new_obj);
      simpl; rewrite ?He; reflexivity.
  - destruct (_defer_initial_card_mark bs); simpl; [|reflexivity].
    destruct (is_in_young h (MemRegion.start (deferred_card_mark thread)));
      simpl; [reflexivity|].
    destruct (is_oop h (MemRegion.start (deferred_card_mark thread)));
      simpl; [|reflexivity].
    destruct (MemRegion.word_size (deferred_card_mark thread)
              =? to_size_t (size h (MemRegion.start (deferred_card_mark thread))));
      simpl; reflexivity.
Qed.

(** * The claims *)

(** ** Mutation recording *)

(** C1, as amended. For a write of [count <= max_intx] references at
    [start] whose bytes [start, start + count * heapOopSize) end at least
    one heap word below the top of the address space, and whose [start] is
    word-aligned unless compressed oops are in use, [write_ref_array]
    returns, and the region it hands to [write_ref_array_work] is that byte
    range aligned outward: it starts at [start] rounded down and ends at the
    end rounded up to a heap word, so it contains the written range and
    exceeds it by less than a word on either side. Afterwards every card with
    a byte in the written range is dirty. *)
Theorem write_ref_array_covers g (bs : CardTableModRefBS) start count :
  0 <= start -> 0 <= count <= max_intx ->
  start + count * heapOopSize g + HeapWordSize <= 2 ^ 64 ->
  UseCompressedOops g = true \/ start mod HeapWordSize = 0 ->
  exists mr,
    write_ref_array g bs start count = Ok (write_ref_array_work bs mr) /\
    MemRegion.start mr = align_down start HeapWordSize /\
    MemRegion.end_ mr = align_up (start + count * heapOopSize g) HeapWordSize /\
    MemRegion.start mr mod HeapWordSize = 0 /\
    MemRegion.end_ mr mod HeapWordSize = 0 /\
    start - HeapWordSize < MemRegion.start mr <= start /\
    start + count * heapOopSize g <= MemRegion.end_ mr
      < start + count * heapOopSize g + HeapWordSize /\
    covered (_card_table (write_ref_array_work bs mr))
            start (start + count * heapOopSize g).
Proof.
  intros Hs [Hc Hmax] Hfit Halign.
  assert (0 < HeapWordSize) as Hw by reflexivity.
  assert (0 <= count * heapOopSize g) as Hbytes.
  { destruct (heapOopSize_cases g) as [[_ ->]|[_ ->]]; lia. }
  set (e := start + count * heapOopSize g) in *.
  assert (write_end g start count = e) as Hend.
  { apply write_end_no_wrap; unfold HeapWordSize in *; lia. }
  destruct (align_down_bounds start HeapWordSize Hw) as [Hd1 Hd2].
  pose proof (align_down_aligned start HeapWordSize Hw) as Hd3.
  pose proof (align_down_nonneg start HeapWordSize Hw Hs) as Hd4.
  destruct (align_up_bounds e HeapWordSize Hw) as [[Hu1 Hu2] Hu3]; [lia | lia |].
  set (mr := MemRegion.of_range (align_down start HeapWordSize) (align_up e HeapWordSize)).
  destruct (of_range_aligned (align_down start HeapWordSize) (align_up e HeapWordSize))
    as [Hrs Hre]; [assumption | assumption | unfold HeapWordSize in *; lia |].
  fold mr in Hrs, Hre.
  pose proof (dirty_MemRegion_covers (_card_table bs) mr) as Hcov.
  rewrite Hrs, Hre in Hcov.
  exists mr. split.
  { unfold write_ref_array. rewrite Hend. fold mr.
    replace (count <=? max_intx) with true by (symmetry; apply Z.leb_le; exact Hmax).
    rewrite assert_true.
    replace (UseCompressedOops g || _) with true; [reflexivity|].
    symmetry. destruct (heapOopSize_cases g) as [[-> _]|[Hu Ho]]; [reflexivity|].
    destruct Halign as [Hu' | Hst]; [congruence|].
    rewrite Hu. simpl. apply andb_true_iff. rewrite !Z.eqb_eq. split.
    - by apply align_down_fixed.
    - apply align_up_fixed; [lia | lia |].
      subst e. rewrite Ho. unfold HeapWordSize in *.
      rewrite Z.add_mod, Z_mod_mult, Hst by lia. reflexivity. }
  rewrite Hrs, Hre. repeat split; try assumption; try lia.
  revert Hcov. apply covered_mono; lia.
Qed.

(** The spec's scenario: 20 narrow references written at address 100 cover
    bytes [100, 180). *)
Lemma write_ref_array_covers_witness :
  exists mr,
    write_ref_array ex_globals ex_barrier_immediate 100 20
      = Ok (write_ref_array_work ex_barrier_immediate mr) /\
    MemRegion.start mr = 96 /\ MemRegion.end_ mr = 184 /\
    covered (_card_table (write_ref_array_work ex_barrier_immediate mr)) 100 180.
Proof.
  destruct (write_ref_array_covers ex_globals ex_barrier_immediate 100 20)
    as (mr & Hw & Hs & He & _ & _ & _ & _ & Hcov).
  - lia.
  - vm_compute. split; discriminate.
  - vm_compute. discriminate.
  - left. reflexivity.
  - exists mr. repeat split; [exact Hw | exact Hs | exact He | exact Hcov].
Defined.

(** The example scenario of the spec: cards of 512 bytes, heap at 0, narrow
    references. Writing 20 elements at 100 dirties card 0 only; writing 5
    more at 1000 dirties card 1 and leaves card 0 dirty. *)
Example spec_scenario :
  (bs ← write_ref_array ex_globals ex_barrier_immediate 100 20;
   Ok (CardTable.byte_map (_card_table bs)))
  = Ok [CardTable.dirty_card; CardTable.clean_card; CardTable.clean_card; CardTable.clean_card]
  /\ (bs ← write_ref_array ex_globals ex_barrier_immediate 100 20;
      bs ← write_ref_array ex_globals bs 1000 5;
      Ok (CardTable.byte_map (_card_table bs)))
     = Ok [CardTable.dirty_card; CardTable.dirty_card; CardTable.clean_card; CardTable.clean_card].
Proof. split; reflexivity. Qed.

(** C1 as stated fails at two inputs. With compressed oops, [2^62] elements
    are within the allowed maximum, yet [count * heapOopSize] wraps to 0: the
    region handed on is empty and card 0, whose bytes lie in the written
    range, stays clean. Without compressed oops, a write at the unaligned
    address 4 stops at the alignment assertion and dirties nothing. *)
Lemma write_ref_array_undermarks :
  (0 <= 2 ^ 62 <= max_intx)
  /\ write_ref_array ex_globals ex_barrier_immediate 0 (2 ^ 62) = Ok ex_barrier_immediate
  /\ intersects (CardTable.card_start ex_card_table 0) (CardTable.card_end ex_card_table 0)
                0 (0 + 2 ^ 62 * heapOopSize ex_globals) = true
  /\ CardTable.query (_card_table ex_barrier_immediate) 0 = Some CardTable.clean_card
  /\ write_ref_array ex_globals_wide ex_barrier_immediate 4 1
     = Fatal "Expected heap word alignment of start and end".
Proof.
  split; [vm_compute; split; discriminate|].
  repeat split; vm_compute; reflexivity.
Qed.

(** C9, as amended. [write_ref_array] stops with the fatal assertion "count
    too large" exactly when the element count exceeds [max_intx]: a call
    above the maximum never returns a state, and a call within it never
    reaches that assertion's failure. The maximum does not keep the byte
    count from overflowing: the end of the written bytes that the code
    computes is [start + count * heapOopSize] exactly when that sum stays
    below [2^64], whatever the count is against [max_intx]. *)
Theorem write_ref_array_count_precondition `{BarrierSet B} g (bs : B) start count :
  (max_intx < count -> write_ref_array g bs start count = Fatal "count too large")
  /\ (count <= max_intx -> write_ref_array g bs start count <> Fatal "count too large")
  /\ (0 <= start -> 0 <= count ->
      (start + count * heapOopSize g < 2 ^ 64 <->
       write_end g start count = start + count * heapOopSize g)).
Proof.
  split; [|split].
  - intros Hc. unfold write_ref_array.
    replace (count <=? max_intx) with false by (symmetry; apply Z.leb_gt; exact Hc).
    reflexivity.
  - intros Hc. unfold write_ref_array.
    replace (count <=? max_intx) with true by (symmetry; apply Z.leb_le; exact Hc).
    rewrite assert_true.
    destruct (UseCompressedOops g || _); simpl; discriminate.
  - intros Hs Hc. split.
    + intros Hfit. by apply write_end_no_wrap.
    + intros Heq.
      assert (write_end g start count < 2 ^ 64) as Hlt.
      { unfold write_end, wrap. apply Z.mod_pos_bound. reflexivity. }
      lia.
Qed.

Lemma write_ref_array_count_precondition_witness :
  write_ref_array ex_globals ex_barrier 0 (2 ^ 63) = Fatal "count too large"
  /\ write_ref_array ex_globals ex_barrier 0 8 <> Fatal "count too large"
  /\ write_end ex_globals 100 20 = 100 + 20 * heapOopSize ex_globals.
Proof.
  split; [|split].
  - apply (proj1 (write_ref_array_count_precondition ex_globals ex_barrier 0 (2 ^ 63))).
    vm_compute. reflexivity.
  - apply (proj1 (proj2 (write_ref_array_count_precondition ex_globals ex_barrier 0 8))).
    vm_compute. discriminate.
  - apply (proj2 (proj2 (write_ref_array_count_precondition ex_globals ex_barrier 100 20))).
    + lia.
    + lia.
    + vm_compute. reflexivity.
Defined.

(** C9 as stated fails: [2^62] elements of 4 bytes are within the maximum
    and pass the assertion, yet their byte count is [2^64] and wraps to 0,
    so that the end the code computes is [start] itself. *)
Lemma count_within_maximum_overflows :
  (2 ^ 62 <= max_intx)
  /\ write_ref_array ex_globals ex_barrier 0 (2 ^ 62) = Ok ex_barrier
  /\ 2 ^ 62 * heapOopSize ex_globals = 2 ^ 64
  /\ wrap (2 ^ 62 * heapOopSize ex_globals) = 0
  /\ write_end ex_globals 0 (2 ^ 62) = 0.
Proof.
  split; [vm_compute; discriminate|].
  repeat split; vm_compute; reflexivity.
Qed.

(** C8. Dirtying is idempotent: [write_ref_array_work] and [invalidate]
    applied twice to a region give the state that one application gives; a
    dirty card stays dirty; and when every card of the region is already
    dirty the operation changes nothing. *)
Theorem dirtying_idempotent (bs : CardTableModRefBS) (mr : MemRegion.t) :
  write_ref_array_work (write_ref_array_work bs mr) mr = write_ref_array_work bs mr
  /\ invalidate (invalidate bs mr) mr = invalidate bs mr
  /\ (forall i : nat,
        CardTable.query (_card_table bs) i = Some CardTable.dirty_card ->
        CardTable.query (_card_table (write_ref_array_work bs mr)) i
        = Some CardTable.dirty_card)
  /\ (covered (_card_table bs) (MemRegion.start mr) (MemRegion.end_ mr) ->
      write_ref_array_work bs mr = bs /\ invalidate bs mr = bs).
Proof.
  destruct bs as [d ct]. unfold invalidate, CardTable.invalidate. simpl.
  rewrite dirty_MemRegion_idempotent. repeat split.
  - apply dirty_MemRegion_keeps_dirty.
  - by rewrite dirty_MemRegion_already_dirty.
  - by rewrite dirty_MemRegion_already_dirty.
Qed.

(** A table in which the cards of the region are dirty is left as it is. *)
Lemma dirtying_idempotent_witness :
  write_ref_array_work (write_ref_array_work ex_barrier (MemRegion.make 96 11))
                       (MemRegion.make 96 11)
  = write_ref_array_work ex_barrier (MemRegion.make 96 11)
  /\ invalidate (write_ref_array_work ex_barrier (MemRegion.make 96 11))
                (MemRegion.make 96 11)
     = write_ref_array_work ex_barrier (MemRegion.make 96 11).
Proof.
  apply (proj2 (proj2 (proj2
    (dirtying_idempotent (write_ref_array_work ex_barrier (MemRegion.make 96 11))
                         (MemRegion.make 96 11))))).
  apply dirty_MemRegion_covers.
Defined.

(** ** The deferred initial card mark protocol *)

(** C5. The flush returns exactly in the states in which none of its
    assertions fires ([flush_admissible]); in every other state it stops
    with a fatal assertion, in particular whenever the slot holds a region
    that does not start at an object outside the young generation of exactly
    the region's size. Whenever it returns the slot is empty; if the slot was
    empty at entry, barrier and thread are returned as they were; if it was
    not, the object checks held, the region was passed to [write_region] so
    that every card of the region is dirty, and the slot was cleared. In a
    build with the compiler, a non-empty slot that passes the checks while
    the defer flag is set is flushed in just this way. *)
Theorem flush_deferred_card_mark_barrier_spec g h bs thread :
  (flush_admissible g h bs thread = true ->
   exists bs' thread', flush_deferred_card_mark_barrier g h bs thread = Ok (bs', thread'))
  /\ (flush_admissible g h bs thread = false ->
      exists msg, flush_deferred_card_mark_barrier g h bs thread = Fatal msg)
  /\ (MemRegion.is_empty (deferred_card_mark thread) = false ->
      refers_to_old_object h (deferred_card_mark thread) = false ->
      exists msg, flush_deferred_card_mark_barrier g h bs thread = Fatal msg)
  /\ (forall bs' thread',
        flush_deferred_card_mark_barrier g h bs thread = Ok (bs', thread') ->
        MemRegion.is_empty (deferred_card_mark thread') = true
        /\ (MemRegion.is_empty (deferred_card_mark thread) = true ->
            bs' = bs /\ thread' = thread)
        /\ (MemRegion.is_empty (deferred_card_mark thread) = false ->
            refers_to_old_object h (deferred_card_mark thread) = true
            /\ bs' = write_region bs (deferred_card_mark thread)
            /\ covered (_card_table bs')
                       (MemRegion.start (deferred_card_mark thread))
                       (MemRegion.end_ (deferred_card_mark thread))
            /\ thread' = set_deferred_card_mark thread MemRegion.empty))
  /\ (COMPILER2_or_JVMCI g = true ->
      MemRegion.is_empty (deferred_card_mark thread) = false ->
      _defer_initial_card_mark bs = true ->
      refers_to_old_object h (deferred_card_mark thread) = true ->
      flush_deferred_card_mark_barrier g h bs thread
      = Ok (write_region bs (deferred_card_mark thread),
            set_deferred_card_mark thread MemRegion.empty)).
Proof.
  pose proof (flush_is_Ok g h bs thread) as Hok.
  split; [|split; [|split; [|split]]].
  - intros Ha. rewrite Ha in Hok.
    destruct (flush_deferred_card_mark_barrier g h bs thread) as [[bs' thread']|msg];
      [eauto | discriminate].
  - intros Ha. rewrite Ha in Hok.
    destruct (flush_deferred_card_mark_barrier g h bs thread) as [[bs' thread']|msg];
      [discriminate | eauto].
  - intros He Hr.
    destruct (flush_deferred_card_mark_barrier g h bs thread) as [[bs' thread']|msg] eqn:Hf;
      [|eauto].
    destruct (flush_Ok_cases _ _ _ _ _ _ Hf) as [(He' & _) | (_ & _ & _ & Hr' & _)];
      congruence.
  - intros bs' thread' Hf.
    destruct (flush_Ok_post _ _ _ _ _ _ Hf) as (He' & _ & Hcov).
    split; [exact He'|].
    destruct (flush_Ok_cases _ _ _ _ _ _ Hf)
      as [(He & -> & ->) | (_ & He & _ & Hr & -> & ->)].
    + split; [auto | congruence].
    + split; [congruence | auto].
  - intros HC He Hd Hr. by apply flush_armed_ok.
Qed.

(** The armed thread of the example is flushed: the cards of its region
    become dirty and the slot is cleared. A slot whose size does not match
    the object, and an armed slot under a barrier whose defer flag is off,
    stop the flush. *)
Lemma flush_deferred_card_mark_barrier_spec_witness :
  flush_deferred_card_mark_barrier ex_globals ex_heap ex_barrier ex_armed_thread
  = Ok (write_region ex_barrier (MemRegion.make 1536 4), new_JavaThread)
  /\ covered (_card_table (write_region ex_barrier (MemRegion.make 1536 4))) 1536 1568
  /\ (exists msg,
        flush_deferred_card_mark_barrier ex_globals ex_heap ex_barrier ex_mismatched_thread
        = Fatal msg)
  /\ (exists msg,
        flush_deferred_card_mark_barrier ex_globals ex_heap ex_barrier_immediate
          ex_armed_thread
        = Fatal msg).
Proof.
  destruct (flush_deferred_card_mark_barrier_spec
              ex_globals ex_heap ex_barrier ex_armed_thread)
    as (_ & _ & _ & Hpost & Hflush).
  pose proof (Hflush eq_refl eq_refl eq_refl eq_refl) as Hf.
  destruct (Hpost _ _ Hf) as (_ & _ & Harmed).
  destruct (Harmed eq_refl) as (_ & _ & Hcov & _).
  split; [exact Hf|]. split; [exact Hcov|]. split.
  - apply (proj1 (proj2 (proj2 (flush_deferred_card_mark_barrier_spec
             ex_globals ex_heap ex_barrier ex_mismatched_thread))));
      reflexivity.
  - apply (proj1 (proj2 (flush_deferred_card_mark_barrier_spec
             ex_globals ex_heap ex_barrier_immediate ex_armed_thread))).
    reflexivity.
Defined.

(** C2. [on_thread_detach] is a flush. It returns in every state in which
    the flush's assertions hold and stops with a fatal assertion in every
    other state. Whenever it returns, the thread's slot is empty; a thread
    whose slot was empty at entry gets the barrier and the thread back as
    they were; and if a region was armed at entry, the barrier returned is
    the one given with that region passed to [write_region] and the thread
    is the one given with its slot cleared, so that every card of the given
    table that has a byte in the region is dirty in the returned table, no
    card that was dirty has been cleaned, and the table has its cards, base
    and card size as before. *)
Theorem on_thread_detach_flushes g h bs thread :
  on_thread_detach g h bs thread = flush_deferred_card_mark_barrier g h bs thread
  /\ (flush_admissible g h bs thread = true ->
      exists bs' thread', on_thread_detach g h bs thread = Ok (bs', thread'))
  /\ (flush_admissible g h bs thread = false ->
      exists msg, on_thread_detach g h bs thread = Fatal msg)
  /\ (forall bs' thread',
        on_thread_detach g h bs thread = Ok (bs', thread') ->
        MemRegion.is_empty (deferred_card_mark thread') = true
        /\ (MemRegion.is_empty (deferred_card_mark thread) = true ->
            bs' = bs /\ thread' = thread)
        /\ (MemRegion.is_empty (deferred_card_mark thread) = false ->
            bs' = write_region bs (deferred_card_mark thread)
            /\ thread' = set_deferred_card_mark thread MemRegion.empty
            /\ marked (_card_table bs) (_card_table bs')
                      (MemRegion.start (deferred_card_mark thread))
                      (MemRegion.end_ (deferred_card_mark thread))
            /\ covered (_card_table bs')
                       (MemRegion.start (deferred_card_mark thread))
                       (MemRegion.end_ (deferred_card_mark thread))
            /\ same_geometry (_card_table bs) (_card_table bs')
            /\ keeps_dirty (_card_table bs) (_card_table bs'))).
Proof.
  unfold on_thread_detach. split; [reflexivity|].
  pose proof (flush_is_Ok g h bs thread) as Hok.
  split; [|split].
  - intros Ha. rewrite Ha in Hok.
    destruct (flush_deferred_card_mark_barrier g h bs thread) as [[bs' thread']|msg];
      [eauto | discriminate].
  - intros Ha. rewrite Ha in Hok.
    destruct (flush_deferred_card_mark_barrier g h bs thread) as [[bs' thread']|msg];
      [discriminate | eauto].
  - intros bs' thread' Hf. destruct (flush_Ok_post _ _ _ _ _ _ Hf) as (He & _ & _).
    split; [exact He|].
    destruct (flush_Ok_cases _ _ _ _ _ _ Hf)
      as [(He0 & -> & ->) | (_ & He0 & _ & _ & -> & ->)].
    + split; [auto | congruence].
    + split; [congruence|]. intros _.
      split; [reflexivity|]. split; [reflexivity|]. apply write_region_marks.
Qed.

(** Detaching the armed thread of the example returns the barrier with
    card 3 dirty, the other cards as they were, and the slot cleared;
    detaching the thread with the mismatched slot stops the VM. *)
Lemma on_thread_detach_flushes_witness :
  on_thread_detach ex_globals ex_heap ex_barrier ex_armed_thread
  = Ok (write_region ex_barrier (MemRegion.make 1536 4), new_JavaThread)
  /\ CardTable.byte_map (_card_table (write_region ex_barrier (MemRegion.make 1536 4)))
     = [CardTable.clean_card; CardTable.clean_card; CardTable.clean_card;
        CardTable.dirty_card]
  /\ marked (_card_table ex_barrier)
            (_card_table (write_region ex_barrier (MemRegion.make 1536 4))) 1536 1568
  /\ (exists msg,
        on_thread_detach ex_globals ex_heap ex_barrier ex_mismatched_thread = Fatal msg).
Proof.
  destruct (on_thread_detach_flushes ex_globals ex_heap ex_barrier ex_armed_thread)
    as (_ & Hret & _ & Hpost).
  destruct (Hret eq_refl) as (bs' & thread' & Hd).
  destruct (Hpost bs' thread' Hd) as (_ & _ & Harmed).
  destruct (Harmed eq_refl) as (Hbs & Hthread & Hmarked & _).
  rewrite Hbs, Hthread in Hd. rewrite Hbs in Hmarked.
  split; [exact Hd|]. split; [reflexivity|]. split; [exact Hmarked|].
  apply (proj1 (proj2 (proj2 (on_thread_detach_flushes
           ex_globals ex_heap ex_barrier ex_mismatched_thread)))).
  reflexivity.
Defined.

(** C10. With [ReduceInitialCardMarks] off, [on_slowpath_allocation_exit]
    returns the barrier and the thread it was given, whatever the slot
    holds and whatever the new object is: no flush, no card marked, slot and
    card table unchanged. *)
Theorem on_slowpath_allocation_exit_switch_off g h bs thread new_obj :
  ReduceInitialCardMarks g = false ->
  on_slowpath_allocation_exit g h bs thread new_obj = Ok (bs, thread).
Proof. apply slowpath_switch_off. Qed.

Lemma on_slowpath_allocation_exit_switch_off_witness :
  on_slowpath_allocation_exit ex_globals_off ex_heap ex_barrier ex_armed_thread 2000
  = Ok (ex_barrier, ex_armed_thread).
Proof.
  apply (on_slowpath_allocation_exit_switch_off
           ex_globals_off ex_heap ex_barrier ex_armed_thread 2000).
  reflexivity.
Defined.

(** C3. On every invocation of [on_slowpath_allocation_exit] in a state
    reached from initialization, the flush comes before any arming
    decision. If the flush stops at an assertion, so does the call, with
    the same message. Otherwise the flush has emptied the slot, a region
    that was pending has been passed to [write_region] and the slot
    cleared, and the call goes on exactly as it would from that flushed
    state: when it returns, every card of the pending region is dirty, and
    the barrier and thread are those the flush returned, with at most the
    new object's region stored in the emptied slot or passed to
    [invalidate]. (Where [ReduceInitialCardMarks] is off or the compiler
    is absent the call returns at once; in a reached state the slot is then
    empty and the flush returns the state as it is.) *)
Theorem on_slowpath_allocation_exit_flushes_first g ct bs thread h new_obj :
  reachable g ct (bs, thread) ->
  (forall msg,
     flush_deferred_card_mark_barrier g h bs thread = Fatal msg ->
     on_slowpath_allocation_exit g h bs thread new_obj = Fatal msg)
  /\ (forall bs1 thread1,
        flush_deferred_card_mark_barrier g h bs thread = Ok (bs1, thread1) ->
        MemRegion.is_empty (deferred_card_mark thread1) = true
        /\ (MemRegion.is_empty (deferred_card_mark thread) = false ->
            bs1 = write_region bs (deferred_card_mark thread)
            /\ thread1 = set_deferred_card_mark thread MemRegion.empty)
        /\ on_slowpath_allocation_exit g h bs thread new_obj
           = on_slowpath_allocation_exit g h bs1 thread1 new_obj
        /\ forall bs' thread',
             on_slowpath_allocation_exit g h bs thread new_obj = Ok (bs', thread') ->
             marked (_card_table bs) (_card_table bs')
                    (MemRegion.start (deferred_card_mark thread))
                    (MemRegion.end_ (deferred_card_mark thread))
             /\ ((bs' = bs1 /\ thread' = thread1)
                 \/ (bs' = bs1
                     /\ thread' = set_deferred_card_mark thread1 (object_region h new_obj))
                 \/ (bs' = invalidate bs1 (object_region h new_obj)
                     /\ thread' = thread1))).
Proof.
  intros Hreach.
  assert (forall bs1 thread1,
            flush_deferred_card_mark_barrier g h bs thread = Ok (bs1, thread1) ->
            marked (_card_table bs) (_card_table bs1)
                   (MemRegion.start (deferred_card_mark thread))
                   (MemRegion.end_ (deferred_card_mark thread))
            /\ (MemRegion.is_empty (deferred_card_mark thread) = false ->
                bs1 = write_region bs (deferred_card_mark thread)
                /\ thread1 = set_deferred_card_mark thread MemRegion.empty)) as Hflush.
  { intros bs1 thread1 Hf.
    destruct (flush_grows _ _ _ _ _ _ Hf) as [Hg _].
    destruct (flush_Ok_post _ _ _ _ _ _ Hf) as (_ & _ & Hcov).
    split; [by apply covered_marked|].
    destruct (flush_Ok_cases _ _ _ _ _ _ Hf)
      as [(He0 & _) | (_ & _ & _ & _ & -> & ->)]; [congruence | auto]. }
  destruct (COMPILER2_or_JVMCI g && ReduceInitialCardMarks g) eqn:Hon.
  - apply andb_true_iff in Hon as [HC HR]. split.
    + intros msg Hf. by apply slowpath_flush_fatal.
    + intros bs1 thread1 Hf.
      destruct (flush_Ok_post _ _ _ _ _ _ Hf) as (He & _ & _).
      destruct (Hflush bs1 thread1 Hf) as [Hmarked Hpinned].
      split; [exact He|]. split; [exact Hpinned|]. split.
      * rewrite (slowpath_after_flush g h bs thread new_obj HC HR bs1 thread1 Hf).
        symmetry. apply slowpath_after_flush; [exact HC | exact HR |].
        by apply flush_empty.
      * intros bs' thread' Hs.
        rewrite (slowpath_after_flush g h bs thread new_obj HC HR bs1 thread1 Hf) in Hs.
        destruct (is_typeArray h new_obj || is_in_young h new_obj).
        { injection Hs as <- <-. auto. }
        destruct (MemRegion.is_empty (object_region h new_obj)); [discriminate|].
        destruct (_defer_initial_card_mark bs1); injection Hs as <- <-; [auto|].
        split; [|auto]. intros i c Hq Hi.
        apply dirty_MemRegion_keeps_dirty. by apply (Hmarked i c).
  - assert (defer_policy g ct = false) as Hoff.
    { apply policy_off. apply andb_false_iff in Hon. exact Hon. }
    destruct (reachable_policy_off g ct bs thread h Hoff Hreach) as [He Hf0].
    assert (on_slowpath_allocation_exit g h bs thread new_obj = Ok (bs, thread)) as Hs0.
    { apply andb_false_iff in Hon as [HC | HR];
        [by apply slowpath_without_compiler | by apply slowpath_switch_off]. }
    split; [intros msg Hf; congruence|].
    intros bs1 thread1 Hf. rewrite Hf0 in Hf. injection Hf as <- <-.
    split; [exact He|]. split; [congruence|]. split; [reflexivity|].
    intros bs' thread' Hs. rewrite Hs0 in Hs. injection Hs as <- <-.
    split; [|auto]. intros i c _ Hi.
    pose proof (covered_empty_region (_card_table bs) _ He i c) as Hnone.
    unfold MemRegion.is_empty, MemRegion.end_ in *. apply Z.eqb_eq in He.
    rewrite He in Hi. unfold intersects in Hi. apply Z.ltb_lt in Hi. lia.
Qed.

(** The armed thread of the example, a state reached by one allocation,
    allocates again: the object at 1536 is marked first and the call
    continues from the flushed state. If the heap has changed meanwhile and
    the pending region no longer matches its object, the flush stops the
    call. *)
Lemma on_slowpath_allocation_exit_flushes_first_witness :
  on_slowpath_allocation_exit ex_globals ex_heap ex_barrier ex_armed_thread 1040
  = on_slowpath_allocation_exit ex_globals ex_heap
      (write_region ex_barrier (MemRegion.make 1536 4)) new_JavaThread 1040
  /\ marked (_card_table ex_barrier)
            (_card_table (write_region ex_barrier (MemRegion.make 1536 4))) 1536 1568
  /\ on_slowpath_allocation_exit ex_globals ex_heap_sizeless ex_barrier ex_armed_thread 1040
     = Fatal "Mismatch: multiple objects?".
Proof.
  assert (reachable ex_globals ex_card_table (ex_barrier, ex_armed_thread)) as Hreach.
  { apply (reachable_step ex_globals ex_card_table
             (ex_barrier, new_JavaThread) (OnSlowpathAllocationExit ex_heap 1536)).
    - apply reachable_initial. reflexivity.
    - reflexivity. }
  destruct (proj2 (on_slowpath_allocation_exit_flushes_first
                     ex_globals ex_card_table ex_barrier ex_armed_thread ex_heap 1040 Hreach)
                  (write_region ex_barrier (MemRegion.make 1536 4)) new_JavaThread eq_refl)
    as (_ & _ & Heq & Hpost).
  destruct (Hpost _ _ eq_refl) as [Hmarked _].
  split; [exact Heq|]. split; [exact Hmarked|].
  apply (proj1 (on_slowpath_allocation_exit_flushes_first
                  ex_globals ex_card_table ex_barrier ex_armed_thread
                  ex_heap_sizeless 1040 Hreach)).
  reflexivity.
Defined.

(** C4. After the flush of [on_slowpath_allocation_exit] has returned
    [(bs1, thread1)]: for a primitive-element array or an object in the young
    generation the call returns [(bs1, thread1)], slot empty and card table
    as the flush left it. For any other object, of positive declared size,
    the region is the object's address with that size; if the defer flag is
    set the call stores it in the slot of the thread and leaves the card
    table alone; if not, the call passes it to [invalidate], every card of
    the region is dirty, and the slot stays empty. *)
Theorem on_slowpath_allocation_exit_decision g h bs thread new_obj bs1 thread1 :
  COMPILER2_or_JVMCI g = true ->
  ReduceInitialCardMarks g = true ->
  flush_deferred_card_mark_barrier g h bs thread = Ok (bs1, thread1) ->
  (is_typeArray h new_obj = true \/ is_in_young h new_obj = true ->
   on_slowpath_allocation_exit g h bs thread new_obj = Ok (bs1, thread1)
   /\ MemRegion.is_empty (deferred_card_mark thread1) = true)
  /\ (is_typeArray h new_obj = false -> is_in_young h new_obj = false ->
      0 < size h new_obj < 2 ^ 64 ->
      (_defer_initial_card_mark bs1 = true ->
       on_slowpath_allocation_exit g h bs thread new_obj
       = Ok (bs1, set_deferred_card_mark thread1 (MemRegion.make new_obj (size h new_obj))))
      /\ (_defer_initial_card_mark bs1 = false ->
          on_slowpath_allocation_exit g h bs thread new_obj
          = Ok (invalidate bs1 (MemRegion.make new_obj (size h new_obj)), thread1)
          /\ covered (_card_table (invalidate bs1 (MemRegion.make new_obj (size h new_obj))))
                     new_obj (new_obj + size h new_obj * HeapWordSize)
          /\ MemRegion.is_empty (deferred_card_mark thread1) = true))
  /\ (is_typeArray h new_obj = false -> is_in_young h new_obj = false ->
      MemRegion.is_empty (object_region h new_obj) = true ->
      on_slowpath_allocation_exit g h bs thread new_obj = Fatal "Error").
Proof.
  intros HC HR Hf.
  destruct (flush_Ok_post _ _ _ _ _ _ Hf) as (He & _ & _).
  rewrite (slowpath_after_flush g h bs thread new_obj HC HR bs1 thread1 Hf).
  split; [|split].
  3:{ intros Ht Hy Hempty. rewrite Ht, Hy, Hempty. reflexivity. }
  - intros Hkind. split; [|exact He].
    replace (is_typeArray h new_obj || is_in_young h new_obj) with true; [reflexivity|].
    symmetry. apply orb_true_iff. exact Hkind.
  - intros Ht Hy Hsz. rewrite Ht, Hy. simpl.
    destruct (object_region_proper h new_obj Hsz) as [Hreg Hne].
    rewrite Hne, Hreg. split.
    + intros ->. reflexivity.
    + intros ->. split; [reflexivity|]. split; [|exact He].
      apply (dirty_MemRegion_covers (_card_table bs1) (MemRegion.make new_obj (size h new_obj))).
Qed.

(** With the defer flag set the object at 1536 is stored in the slot; with
    the flag clear its card is marked at once; the primitive-element array
    at 1024 changes nothing; an object of size 0 stops the call. *)
Lemma on_slowpath_allocation_exit_decision_witness :
  on_slowpath_allocation_exit ex_globals ex_heap ex_barrier new_JavaThread 1536
  = Ok (ex_barrier, ex_armed_thread)
  /\ on_slowpath_allocation_exit ex_globals ex_heap ex_barrier_immediate new_JavaThread 1536
     = Ok (invalidate ex_barrier_immediate (MemRegion.make 1536 4), new_JavaThread)
  /\ on_slowpath_allocation_exit ex_globals ex_heap ex_barrier new_JavaThread 1024
     = Ok (ex_barrier, new_JavaThread)
  /\ on_slowpath_allocation_exit ex_globals ex_heap_sizeless ex_barrier new_JavaThread 1536
     = Fatal "Error".
Proof.
  split; [|split; [|split]].
  - apply (proj1 (proj2 (on_slowpath_allocation_exit_decision
                    ex_globals ex_heap ex_barrier new_JavaThread 1536
                    ex_barrier new_JavaThread eq_refl eq_refl eq_refl)));
      try reflexivity.
    vm_compute. split; reflexivity.
  - apply (proj1 (proj2 (on_slowpath_allocation_exit_decision
                    ex_globals ex_heap ex_barrier_immediate new_JavaThread 1536
                    ex_barrier_immediate new_JavaThread eq_refl eq_refl eq_refl)));
      try reflexivity.
    vm_compute. split; reflexivity.
  - apply (proj1 (on_slowpath_allocation_exit_decision
                    ex_globals ex_heap ex_barrier new_JavaThread 1024
                    ex_barrier new_JavaThread eq_refl eq_refl eq_refl)).
    left. reflexivity.
  - apply (proj2 (proj2 (on_slowpath_allocation_exit_decision
                    ex_globals ex_heap_sizeless ex_barrier new_JavaThread 1536
                    ex_barrier new_JavaThread eq_refl eq_refl eq_refl)));
      reflexivity.
Defined.



(** An armed thread may allocate again. When the pending region passes the
    checks of the flush and the new object calls for a deferred mark, the
    call returns with the pending region marked and the region of the new
    object in the slot. The only assertions that can stop the call are those
    of the flush, about the pending region, and the one on an empty region
    for the new object. *)
Lemma on_slowpath_allocation_exit_rearms g h bs thread new_obj :
  COMPILER2_or_JVMCI g = true ->
  ReduceInitialCardMarks g = true ->
  MemRegion.is_empty (deferred_card_mark thread) = false ->
  (_defer_initial_card_mark bs = true ->
   refers_to_old_object h (deferred_card_mark thread) = true ->
   is_typeArray h new_obj = false -> is_in_young h new_obj = false ->
   0 < size h new_obj < 2 ^ 64 ->
   on_slowpath_allocation_exit g h bs thread new_obj
   = Ok (write_region bs (deferred_card_mark thread),
         set_deferred_card_mark thread (MemRegion.make new_obj (size h new_obj))))
  /\ (forall msg,
        on_slowpath_allocation_exit g h bs thread new_obj = Fatal msg ->
        flush_deferred_card_mark_barrier g h bs thread = Fatal msg
        \/ (MemRegion.is_empty (object_region h new_obj) = true /\ msg = "Error"))
  /\ (forall bs' thread',
        on_slowpath_allocation_exit g h bs thread new_obj = Ok (bs', thread') ->
        MemRegion.is_empty (deferred_card_mark thread') = false ->
        exists bs1 thread1,
          flush_deferred_card_mark_barrier g h bs thread = Ok (bs1, thread1)
          /\ MemRegion.is_empty (deferred_card_mark thread1) = true
          /\ thread' = set_deferred_card_mark thread1 (object_region h new_obj)).
Proof.
  intros HC HR Harmed. split; [|split].
  - intros Hd Hold Ht Hy Hsz.
    pose proof (flush_armed_ok g h bs thread HC Harmed Hd Hold) as Hf.
    rewrite (slowpath_after_flush g h bs thread new_obj HC HR _ _ Hf).
    destruct (object_region_proper h new_obj Hsz) as [Hreg Hne].
    rewrite Ht, Hy, Hne, Hreg. simpl. rewrite Hd. reflexivity.
  - intros msg Hs.
    destruct (flush_deferred_card_mark_barrier g h bs thread)
      as [[bs1 thread1]|msg'] eqn:Hf.
    + right.
      rewrite (slowpath_after_flush g h bs thread new_obj HC HR bs1 thread1 Hf) in Hs.
      destruct (is_typeArray h new_obj || is_in_young h new_obj); [discriminate|].
      destruct (MemRegion.is_empty (object_region h new_obj)).
      * injection Hs as <-. auto.
      * destruct (_defer_initial_card_mark bs1); discriminate.
    + left. rewrite (slowpath_flush_fatal g h bs thread new_obj HC HR msg' Hf) in Hs.
      congruence.
  - intros bs' thread' Hs Hne.
    destruct (slowpath_Ok_cases _ _ _ _ _ _ _ Hs)
      as [([HC' | HR'] & _) | (_ & _ & bs1 & thread1 & Hf & Hcases)];
      [congruence | congruence |].
    destruct (flush_Ok_post _ _ _ _ _ _ Hf) as (He & _ & _).
    exists bs1, thread1. split; [exact Hf|]. split; [exact He|].
    destruct Hcases as [(_ & ->) | [(_ & _ & -> & _) | (_ & _ & ->)]];
      [congruence | reflexivity | congruence].
Qed.

Lemma on_slowpath_allocation_exit_rearms_witness :
  on_slowpath_allocation_exit ex_globals ex_heap ex_barrier ex_armed_thread 1040
  = Ok (write_region ex_barrier (MemRegion.make 1536 4),
        set_deferred_card_mark ex_armed_thread (MemRegion.make 1040 4)).
Proof.
  apply (proj1 (on_slowpath_allocation_exit_rearms
                  ex_globals ex_heap ex_barrier ex_armed_thread 1040
                  eq_refl eq_refl eq_refl));
    try reflexivity.
  vm_compute. split; reflexivity.
Defined.

(** C7. Every operation of the barrier that returns leaves the defer flag
    as it was, keeps the property that a non-empty slot needs the flag, and,
    when the flag is off, leaves an empty slot empty. Hence in every state
    reached from a freshly initialized barrier and a new thread the flag has
    the value computed by [initialize] from the policy, a non-empty slot
    implies that value is true, and if it is false the slot is empty. The
    flush itself checks the property: with a non-empty slot and the flag off
    it stops at an assertion. *)
Theorem deferred_only_when_defer_flag g :
  (forall op bs thread bs' thread',
     run_op g op (bs, thread) = Ok (bs', thread') ->
     _defer_initial_card_mark bs' = _defer_initial_card_mark bs
     /\ (deferred_only_if_enabled (bs, thread) -> deferred_only_if_enabled (bs', thread'))
     /\ (_defer_initial_card_mark bs = false ->
         MemRegion.is_empty (deferred_card_mark thread) = true ->
         MemRegion.is_empty (deferred_card_mark thread') = true))
  /\ (forall ct s,
        reachable g ct s ->
        _defer_initial_card_mark (fst s) = defer_policy g ct
        /\ deferred_only_if_enabled s
        /\ (defer_policy g ct = false ->
            MemRegion.is_empty (deferred_card_mark (snd s)) = true))
  /\ (forall h bs thread,
        MemRegion.is_empty (deferred_card_mark thread) = false ->
        _defer_initial_card_mark bs = false ->
        exists msg, flush_deferred_card_mark_barrier g h bs thread = Fatal msg).
Proof.
  split; [|split].
  3:{ intros h bs thread He Hd.
      pose proof (flush_is_Ok g h bs thread) as Hok.
      unfold flush_admissible in Hok. rewrite He, Hd in Hok.
      destruct (flush_deferred_card_mark_barrier g h bs thread) as [[bs' thread']|msg];
        [|eauto].
      destruct (COMPILER2_or_JVMCI g); discriminate. }
  - intros op bs thread bs' thread' Hr. split; [|split].
    + by apply (run_op_defer_flag g op bs thread bs' thread').
    + by apply (run_op_preserves g op).
    + intros Hd He.
      destruct (MemRegion.is_empty (deferred_card_mark thread')) eqn:He'; [reflexivity|].
      destruct (run_op_slot _ _ _ _ _ _ Hr He'); congruence.
  - intros ct s Hreach. destruct (reachable_invariant g ct s Hreach) as [Hinv Hflag].
    split; [exact Hflag|]. split; [exact Hinv|].
    intros Hoff.
    destruct (MemRegion.is_empty (deferred_card_mark (snd s))) eqn:He; [reflexivity|].
    specialize (Hinv He). congruence.
Qed.

(** The armed state of the example is reached by one allocation after
    initialization, and there the flag is on; a further allocation keeps the
    property; and a barrier with the flag off refuses to flush an armed slot. *)
Lemma deferred_only_when_defer_flag_witness :
  _defer_initial_card_mark (fst (ex_barrier, ex_armed_thread))
  = defer_policy ex_globals ex_card_table
  /\ deferred_only_if_enabled (ex_barrier, ex_armed_thread)
  /\ deferred_only_if_enabled
       (write_region ex_barrier (MemRegion.make 1536 4),
        set_deferred_card_mark ex_armed_thread (MemRegion.make 1040 4))
  /\ (exists msg,
        flush_deferred_card_mark_barrier ex_globals ex_heap ex_barrier_immediate
          ex_armed_thread
        = Fatal msg).
Proof.
  destruct (deferred_only_when_defer_flag ex_globals) as (Hstep & Hreach & Hcheck).
  destruct (Hreach ex_card_table (ex_barrier, ex_armed_thread)) as (Hflag & Hinv & _).
  - apply (reachable_step ex_globals ex_card_table
             (ex_barrier, new_JavaThread) (OnSlowpathAllocationExit ex_heap 1536)).
    + apply reachable_initial. reflexivity.
    + reflexivity.
  - split; [exact Hflag|]. split; [exact Hinv|]. split.
    + apply (proj1 (proj2 (Hstep (OnSlowpathAllocationExit ex_heap 1040)
                                 ex_barrier ex_armed_thread _ _ eq_refl))).
      exact Hinv.
    + apply (Hcheck ex_heap ex_barrier_immediate ex_armed_thread); reflexivity.
Defined.

(** * Further properties of the code *)

(** ** Properties of [write_ref_array] *)

(** X1. A write that does not wrap leaves alone every card that has no byte
    in the word-aligned region around the written bytes, and never changes
    the geometry or the number of cards of the table. *)
Theorem write_ref_array_frame g (bs bs' : CardTableModRefBS) start count :
  0 <= start -> 0 <= count ->
  start + count * heapOopSize g + HeapWordSize <= 2 ^ 64 ->
  write_ref_array g bs start count = Ok bs' ->
  _defer_initial_card_mark bs' = _defer_initial_card_mark bs
  /\ same_geometry (_card_table bs) (_card_table bs')
  /\ forall i : nat,
       intersects (CardTable.card_start (_card_table bs) i)
                  (CardTable.card_end (_card_table bs) i)
                  (align_down start HeapWordSize)
                  (align_up (start + count * heapOopSize g) HeapWordSize) = false ->
       CardTable.query (_card_table bs') i = CardTable.query (_card_table bs) i.
Proof.
  intros Hs Hc Hfit Hw. apply write_ref_array_region in Hw as ->.
  destruct (write_region_bounds g start count Hs Hc Hfit) as [Hrs Hre].
  split; [reflexivity|]. split; [apply dirty_MemRegion_geometry|].
  intros i Hout. apply query_dirty_MemRegion_outside.
  unfold CardTable.card_overlaps. by rewrite Hrs, Hre.
Qed.

Lemma write_ref_array_frame_witness :
  CardTable.query
    (_card_table (write_ref_array_work ex_barrier_immediate (MemRegion.make 96 11))) 1
  = CardTable.query (_card_table ex_barrier_immediate) 1.
Proof.
  apply (proj2 (proj2 (write_ref_array_frame ex_globals ex_barrier_immediate
                         (write_ref_array_work ex_barrier_immediate (MemRegion.make 96 11))
                         100 20 ltac:(lia) ltac:(lia)
                         ltac:(vm_compute; discriminate) eq_refl))).
  reflexivity.
Defined.

(** X2. Over a table whose base is word-aligned and whose cards hold at
    least a word, a write of at least one element that does not wrap dirties
    exactly the cards that have a byte in the written range: rounding to
    words never reaches into a further card. *)
Theorem write_ref_array_exact g (bs bs' : CardTableModRefBS) start count :
  CardTable.base (_card_table bs) mod HeapWordSize = 0 ->
  3 <= CardTable.card_shift (_card_table bs) ->
  0 <= start -> 0 < count ->
  start + count * heapOopSize g + HeapWordSize <= 2 ^ 64 ->
  write_ref_array g bs start count = Ok bs' ->
  forall i : nat,
    CardTable.query (_card_table bs') i =
    (fun c => if intersects (CardTable.card_start (_card_table bs) i)
                            (CardTable.card_end (_card_table bs) i)
                            start (start + count * heapOopSize g)
              then CardTable.dirty_card else c)
      <$> CardTable.query (_card_table bs) i.
Proof.
  intros Hb Hshift Hs Hc Hfit Hw i. apply write_ref_array_region in Hw as ->.
  destruct (write_region_bounds g start count Hs ltac:(lia) Hfit) as [Hrs Hre].
  simpl. rewrite query_dirty_MemRegion. unfold CardTable.card_overlaps.
  rewrite Hrs, Hre.
  assert (0 < HeapWordSize) as Hw by reflexivity.
  assert (0 < count * heapOopSize g) as Hbytes.
  { destruct (heapOopSize_cases g) as [[_ ->]|[_ ->]]; lia. }
  set (e := start + count * heapOopSize g) in *.
  destruct (card_start_aligned (_card_table bs) i Hb Hshift) as [Hcs Hce].
  destruct (align_down_bounds start HeapWordSize Hw) as [Hd1 Hd2].
  pose proof (align_down_aligned start HeapWordSize Hw) as Hd3.
  destruct (align_up_bounds e HeapWordSize Hw) as [[Hu1 Hu2] Hu3]; [lia | lia |].
  set (lo := CardTable.card_start (_card_table bs) i) in *.
  set (hi := CardTable.card_end (_card_table bs) i) in *.
  set (a := align_down start HeapWordSize) in *.
  set (b := align_up e HeapWordSize) in *.
  replace (intersects lo hi a b) with (intersects lo hi start e); [reflexivity|].
  unfold intersects, HeapWordSize in *.
  destruct (Z.max lo start <? Z.min hi e) eqn:H1;
    destruct (Z.max lo a <? Z.min hi b) eqn:H2; try reflexivity;
    [apply Z.ltb_lt in H1; apply Z.ltb_ge in H2
    |apply Z.ltb_ge in H1; apply Z.ltb_lt in H2];
    exfalso; Z.div_mod_to_equations; lia.
Qed.

Lemma write_ref_array_exact_witness :
  CardTable.query
    (_card_table (write_ref_array_work ex_barrier_immediate (MemRegion.make 504 1))) 1
  = Some CardTable.clean_card.
Proof.
  rewrite (write_ref_array_exact ex_globals ex_barrier_immediate
             (write_ref_array_work ex_barrier_immediate (MemRegion.make 504 1))
             508 1 eq_refl ltac:(vm_compute; discriminate) ltac:(lia) ltac:(lia)
             ltac:(vm_compute; discriminate) eq_refl 1%nat).
  reflexivity.
Defined.

(** X3. A write of no elements at a word-aligned address returns the
    barrier unchanged. *)
Theorem write_ref_array_nothing g (bs : CardTableModRefBS) start :
  0 <= start -> start + HeapWordSize <= 2 ^ 64 ->
  start mod HeapWordSize = 0 ->
  write_ref_array g bs start 0 = Ok bs.
Proof.
  intros Hs Hfit Ha. unfold write_ref_array. simpl.
  assert (write_end g start 0 = start) as ->.
  { rewrite write_end_no_wrap; unfold HeapWordSize in *; lia. }
  assert (align_down start HeapWordSize = start) as ->
    by (apply align_down_fixed; [reflexivity | exact Ha]).
  rewrite align_up_fixed by assumption.
  rewrite Z.eqb_refl, orb_true_r. simpl.
  destruct bs as [d ct]. simpl. f_equal. f_equal.
  apply dirty_MemRegion_empty.
  unfold MemRegion.is_empty, MemRegion.of_range. simpl.
  rewrite Z.sub_diag. reflexivity.
Qed.

Lemma write_ref_array_nothing_witness :
  write_ref_array ex_globals_wide ex_barrier 512 0 = Ok ex_barrier.
Proof.
  apply (write_ref_array_nothing ex_globals_wide ex_barrier 512);
    [lia | vm_compute; discriminate | reflexivity].
Defined.

(** X4. Without compressed oops nothing is rounded: a write that does not
    wrap hands on exactly the region of [count] words at [start] when
    [start] is word-aligned, and stops at the alignment assertion when it
    is not. *)
Theorem write_ref_array_wide g (bs : CardTableModRefBS) start count :
  UseCompressedOops g = false ->
  0 <= start -> 0 <= count <= max_intx ->
  start + count * heapOopSize g + HeapWordSize <= 2 ^ 64 ->
  (start mod HeapWordSize = 0 ->
   write_ref_array g bs start count
   = Ok (write_ref_array_work bs (MemRegion.make start count)))
  /\ (start mod HeapWordSize <> 0 ->
      write_ref_array g bs start count
      = Fatal "Expected heap word alignment of start and end").
Proof.
  intros Hu Hs [Hc Hmax] Hfit.
  assert (heapOopSize g = 8) as Ho by (unfold heapOopSize; by rewrite Hu).
  rewrite Ho in Hfit.
  assert (write_end g start count = start + count * 8) as Hend.
  { rewrite write_end_no_wrap; rewrite ?Ho; unfold HeapWordSize in *; lia. }
  unfold write_ref_array. rewrite Hend, Hu.
  replace (count <=? max_intx) with true by (symmetry; apply Z.leb_le; exact Hmax).
  rewrite assert_true. simpl orb.
  split; intros Ha.
  - assert ((start + count * 8) mod HeapWordSize = 0) as Ha'.
    { unfold HeapWordSize in *. rewrite Z.add_mod, Z_mod_mult, Ha by lia. reflexivity. }
    assert (align_down start HeapWordSize = start) as ->
      by (apply align_down_fixed; [reflexivity | exact Ha]).
    rewrite align_up_fixed by (try assumption; lia).
    rewrite !Z.eqb_refl. simpl. do 2 f_equal.
    unfold MemRegion.of_range. f_equal.
    rewrite wrap_small by (unfold HeapWordSize in *; lia).
    replace (start + count * 8 - start) with (count * 8) by lia.
    unfold HeapWordSize. rewrite Z.div_mul by lia. reflexivity.
  - replace (align_down start HeapWordSize =? start) with false; [reflexivity|].
    symmetry. apply Z.eqb_neq. intros Heq.
    apply align_down_fixed in Heq; [contradiction | reflexivity].
Qed.

Lemma write_ref_array_wide_witness :
  write_ref_array ex_globals_wide ex_barrier 512 3
  = Ok (write_ref_array_work ex_barrier (MemRegion.make 512 3))
  /\ write_ref_array ex_globals_wide ex_barrier 516 3
     = Fatal "Expected heap word alignment of start and end".
Proof.
  destruct (write_ref_array_wide ex_globals_wide ex_barrier 512 3)
    as [Hok _]; [reflexivity | lia | vm_compute; split; discriminate
                | vm_compute; discriminate |].
  destruct (write_ref_array_wide ex_globals_wide ex_barrier 516 3)
    as [_ Hbad]; [reflexivity | lia | vm_compute; split; discriminate
                 | vm_compute; discriminate |].
  split; [apply Hok; reflexivity | apply Hbad; vm_compute; discriminate].
Defined.

(** X5. The byte count is computed in [size_t]: adding [2^64 / heapOopSize]
    elements to the count, while staying within [max_intx], changes neither
    the outcome nor the cards that are dirtied. *)
Theorem write_ref_array_count_wraps `{BarrierSet B} g (bs : B) start count :
  0 <= count -> count + 2 ^ 64 / heapOopSize g <= max_intx ->
  write_ref_array g bs start (count + 2 ^ 64 / heapOopSize g)
  = write_ref_array g bs start count.
Proof.
  intros Hc Hmax.
  assert (0 <= 2 ^ 64 / heapOopSize g /\ 2 ^ 64 / heapOopSize g * heapOopSize g = 2 ^ 64)
    as [Hk Hprod].
  { destruct (heapOopSize_cases g) as [[_ ->]|[_ ->]]; vm_compute; split; congruence. }
  unfold write_ref_array.
  replace (count + 2 ^ 64 / heapOopSize g <=? max_intx) with true
    by (symmetry; apply Z.leb_le; exact Hmax).
  replace (count <=? max_intx) with true by (symmetry; apply Z.leb_le; lia).
  assert (write_end g start (count + 2 ^ 64 / heapOopSize g) = write_end g start count)
    as ->; [|reflexivity].
  unfold write_end. f_equal. f_equal. unfold wrap.
  rewrite Z.mul_add_distr_r, Hprod.
  rewrite <- (Z.mul_1_l (2 ^ 64)) at 1. apply Z.mod_add. discriminate.
Qed.

Lemma write_ref_array_count_wraps_witness :
  write_ref_array ex_globals ex_barrier 100 (20 + 2 ^ 64 / heapOopSize ex_globals)
  = write_ref_array ex_globals ex_barrier 100 20.
Proof.
  apply (write_ref_array_count_wraps ex_globals ex_barrier 100 20);
    [lia | vm_compute; discriminate].
Defined.

(** ** Properties of the barrier's operations *)

(** X6. No operation of the barrier cleans a card: whenever an operation
    returns, every card that was dirty is still dirty, and base, card size,
    number of cards and the concurrent-scan attribute of the table are as
    before. *)
Theorem run_op_never_cleans g op bs thread bs' thread' :
  run_op g op (bs, thread) = Ok (bs', thread') ->
  same_geometry (_card_table bs) (_card_table bs')
  /\ keeps_dirty (_card_table bs) (_card_table bs').
Proof.
  destruct op as [start count|mr|mr|h new_obj|h|h]; simpl; intros Hr.
  - apply bind_Ok in Hr as (bs1 & Hw & Hr). injection Hr as <- <-.
    apply write_ref_array_region in Hw as ->. apply invalidate_grows.
  - injection Hr as <- <-. apply invalidate_grows.
  - injection Hr as <- <-. apply invalidate_grows.
  - destruct (slowpath_Ok_cases _ _ _ _ _ _ _ Hr)
      as [(_ & -> & ->) | (_ & _ & bs1 & thread1 & Hf & Hcases)].
    { split; [apply same_geometry_refl | apply keeps_dirty_refl]. }
    destruct (flush_grows _ _ _ _ _ _ Hf) as [Hg1 Hd1].
    destruct Hcases as [(-> & _) | [(_ & -> & _) | (_ & -> & _)]]; [auto | auto |].
    destruct (invalidate_grows bs1 (object_region h new_obj)) as [Hg2 Hd2].
    split; [by apply (same_geometry_trans _ (_card_table bs1))
           | by apply (keeps_dirty_trans _ (_card_table bs1))].
  - by apply (flush_grows g h bs thread bs' thread').
  - by apply (flush_grows g h bs thread bs' thread').
Qed.

(** Card 3, dirtied by a flush, is still dirty after an array write
    elsewhere. *)
Lemma run_op_never_cleans_witness :
  exists bs',
    run_op ex_globals (WriteRefArray 100 20)
      (write_region ex_barrier (MemRegion.make 1536 4), new_JavaThread)
    = Ok (bs', new_JavaThread)
    /\ CardTable.query (_card_table bs') 3 = Some CardTable.dirty_card.
Proof.
  eexists. split; [reflexivity|].
  apply (proj2 (run_op_never_cleans ex_globals (WriteRefArray 100 20)
                  (write_region ex_barrier (MemRegion.make 1536 4)) new_JavaThread
                  _ new_JavaThread eq_refl)).
  reflexivity.
Defined.

(** X7. A flush that has returned need not be repeated: a second flush,
    over whatever heap, returns the same barrier and thread. *)
Theorem flush_twice g h h' bs thread bs' thread' :
  flush_deferred_card_mark_barrier g h bs thread = Ok (bs', thread') ->
  flush_deferred_card_mark_barrier g h' bs' thread' = Ok (bs', thread').
Proof.
  intros Hf. destruct (flush_Ok_post _ _ _ _ _ _ Hf) as (He & Hd & _).
  destruct (COMPILER2_or_JVMCI g) eqn:HC.
  - by apply flush_empty.
  - rewrite flush_without_compiler in Hf |- * by exact HC.
    rewrite Hd, He.
    destruct (_defer_initial_card_mark bs); [discriminate|]. reflexivity.
Qed.

Lemma flush_twice_witness :
  flush_deferred_card_mark_barrier ex_globals ex_heap_sizeless
    (write_region ex_barrier (MemRegion.make 1536 4)) new_JavaThread
  = Ok (write_region ex_barrier (MemRegion.make 1536 4), new_JavaThread).
Proof.
  apply (flush_twice ex_globals ex_heap ex_heap_sizeless ex_barrier ex_armed_thread).
  reflexivity.
Defined.

(** X8. A thread is armed only where the policy allows it: in every state
    reached from initialization, a non-empty slot means that the build has
    the compiler, the VM is in server compilation mode,
    [ReduceInitialCardMarks] is on, the barrier can elide the store
    barriers, and deferral was asked for or the card table is scanned
    concurrently. *)
Theorem armed_only_under_policy g ct bs thread :
  reachable g ct (bs, thread) ->
  MemRegion.is_empty (deferred_card_mark thread) = false ->
  COMPILER2_or_JVMCI g = true
  /\ is_server_compilation_mode_vm g = true
  /\ ReduceInitialCardMarks g = true
  /\ can_elide_tlab_store_barriers g = true
  /\ (DeferInitialCardMark g = true \/ CardTable.scanned_concurrently ct = true).
Proof.
  intros Hreach Hne.
  destruct (reachable_invariant g ct _ Hreach) as [Hinv Hflag].
  specialize (Hinv Hne). simpl in Hinv, Hflag. rewrite Hflag in Hinv.
  unfold defer_policy in Hinv.
  apply andb_true_iff in Hinv as [HC Hinv].
  apply andb_true_iff in Hinv as [Hinv Hd].
  apply andb_true_iff in Hinv as [Hinv He].
  apply andb_true_iff in Hinv as [Hs HR].
  apply orb_true_iff in Hd. auto.
Qed.

Lemma armed_only_under_policy_witness :
  COMPILER2_or_JVMCI ex_globals = true
  /\ is_server_compilation_mode_vm ex_globals = true
  /\ ReduceInitialCardMarks ex_globals = true
  /\ can_elide_tlab_store_barriers ex_globals = true
  /\ (DeferInitialCardMark ex_globals = true
      \/ CardTable.scanned_concurrently ex_card_table = true).
Proof.
  apply (armed_only_under_policy ex_globals ex_card_table ex_barrier ex_armed_thread).
  - apply (reachable_step ex_globals ex_card_table
             (ex_barrier, new_JavaThread) (OnSlowpathAllocationExit ex_heap 1536)).
    + apply reachable_initial. reflexivity.
    + reflexivity.
  - reflexivity.
Defined.

(** X9. In a state reached from initialization the flush can stop only at
    one of its three checks of the pending object: the assertions about the
    defer flag and about the slot being empty at the end never fire. *)
Theorem flush_stops_only_at_object_checks g ct bs thread h msg :
  reachable g ct (bs, thread) ->
  flush_deferred_card_mark_barrier g h bs thread = Fatal msg ->
  MemRegion.is_empty (deferred_card_mark thread) = false
  /\ refers_to_old_object h (deferred_card_mark thread) = false
  /\ (msg = "Else should have been filtered in on_slowpath_allocation_exit()"
      \/ msg = "Not an oop"
      \/ msg = "Mismatch: multiple objects?").
Proof.
  intros Hreach Hf.
  destruct (reachable_invariant g ct _ Hreach) as [Hinv Hflag].
  unfold deferred_only_if_enabled in Hinv. simpl in Hinv, Hflag.
  destruct (MemRegion.is_empty (deferred_card_mark thread)) eqn:He.
  - exfalso. destruct (COMPILER2_or_JVMCI g) eqn:HC.
    + rewrite flush_empty in Hf by assumption. discriminate.
    + rewrite flush_without_compiler in Hf by exact HC.
      rewrite Hflag, He in Hf. unfold defer_policy in Hf. rewrite HC in Hf.
      discriminate.
  - specialize (Hinv eq_refl).
    assert (COMPILER2_or_JVMCI g = true) as HC.
    { rewrite Hflag in Hinv. unfold defer_policy in Hinv.
      by apply andb_true_iff in Hinv as [HC _]. }
    split; [reflexivity|].
    unfold flush_deferred_card_mark_barrier in Hf. rewrite HC, He, Hinv in Hf.
    unfold refers_to_old_object. simpl in Hf.
    destruct (is_in_young h (MemRegion.start (deferred_card_mark thread)));
      simpl in Hf |- *; [injection Hf as <-; auto|].
    destruct (is_oop h (MemRegion.start (deferred_card_mark thread)));
      simpl in Hf |- *; [|injection Hf as <-; auto].
    destruct (MemRegion.word_size (deferred_card_mark thread)
              =? to_size_t (size h (MemRegion.start (deferred_card_mark thread))));
      simpl in Hf; [discriminate|injection Hf as <-; auto].
Qed.

(** Over a heap that no longer has an object of four words at 1536, the
    flush of the armed thread stops at the size check. *)
Lemma flush_stops_only_at_object_checks_witness :
  MemRegion.is_empty (deferred_card_mark ex_armed_thread) = false
  /\ refers_to_old_object ex_heap_sizeless (deferred_card_mark ex_armed_thread) = false
  /\ ("Mismatch: multiple objects?"
      = "Else should have been filtered in on_slowpath_allocation_exit()"
      \/ "Mismatch: multiple objects?" = "Not an oop"
      \/ "Mismatch: multiple objects?" = "Mismatch: multiple objects?").
Proof.
  apply (flush_stops_only_at_object_checks
           ex_globals ex_card_table ex_barrier ex_armed_thread
           ex_heap_sizeless "Mismatch: multiple objects?").
  - apply (reachable_step ex_globals ex_card_table
             (ex_barrier, new_JavaThread) (OnSlowpathAllocationExit ex_heap 1536)).
    + apply reachable_initial. reflexivity.
    + reflexivity.
  - reflexivity.
Defined.

(** X10. Where the policy gives a defer flag that is off, detaching never
    fails and changes nothing: in every state reached from initialization
    the flush returns the barrier and the thread as they are. *)
Theorem detach_is_inert_without_deferral g ct bs thread h :
  defer_policy g ct = false ->
  reachable g ct (bs, thread) ->
  on_thread_detach g h bs thread = Ok (bs, thread)
  /\ flush_deferred_card_mark_barrier g h bs thread = Ok (bs, thread).
Proof.
  intros Hoff Hreach.
  destruct (reachable_invariant g ct _ Hreach) as [Hinv Hflag].
  unfold deferred_only_if_enabled in Hinv. simpl in Hinv, Hflag.
  rewrite Hoff in Hflag.
  assert (MemRegion.is_empty (deferred_card_mark thread) = true) as He.
  { destruct (MemRegion.is_empty (deferred_card_mark thread)); [reflexivity|].
    specialize (Hinv eq_refl). congruence. }
  unfold on_thread_detach.
  assert (flush_deferred_card_mark_barrier g h bs thread = Ok (bs, thread)) as Hf.
  { destruct (COMPILER2_or_JVMCI g) eqn:HC.
    - by apply flush_empty.
    - rewrite flush_without_compiler by exact HC. by rewrite Hflag, He. }
  auto.
Qed.

(** With [ReduceInitialCardMarks] off, a thread that has allocated detaches
    without touching the barrier. *)
Lemma detach_is_inert_without_deferral_witness :
  on_thread_detach ex_globals_off ex_heap ex_barrier_immediate new_JavaThread
  = Ok (ex_barrier_immediate, new_JavaThread).
Proof.
  apply (proj1 (detach_is_inert_without_deferral
                  ex_globals_off ex_card_table ex_barrier_immediate new_JavaThread
                  ex_heap eq_refl
                  (reachable_step ex_globals_off ex_card_table
                     (ex_barrier_immediate, new_JavaThread)
                     (OnSlowpathAllocationExit ex_heap 1536) _
                     (reachable_initial ex_globals_off ex_card_table
                        ex_barrier_immediate eq_refl)
                     eq_refl))).
Defined.

(** X11. [on_slowpath_allocation_exit] touches only the cards of the region
    that was pending and of the new object; and when the defer flag is set
    it does not touch the cards of the new object either, unless they are
    cards of the pending region: the mark of the new object never precedes
    its initializing stores. *)
Theorem on_slowpath_allocation_exit_frame g h bs thread new_obj bs' thread' :
  on_slowpath_allocation_exit g h bs thread new_obj = Ok (bs', thread') ->
  forall i : nat,
    CardTable.card_overlaps (_card_table bs) i (deferred_card_mark thread) = false ->
    (CardTable.card_overlaps (_card_table bs) i (object_region h new_obj) = false
     \/ _defer_initial_card_mark bs = true) ->
    CardTable.query (_card_table bs') i = CardTable.query (_card_table bs) i.
Proof.
  intros Hs i Hold Hnew.
  destruct (slowpath_Ok_cases _ _ _ _ _ _ _ Hs)
    as [(_ & -> & ->) | (_ & _ & bs1 & thread1 & Hf & Hcases)]; [reflexivity|].
  destruct (flush_Ok_post _ _ _ _ _ _ Hf) as (_ & Hd & _).
  assert (CardTable.query (_card_table bs1) i = CardTable.query (_card_table bs) i
          /\ CardTable.card_overlaps (_card_table bs1) i (object_region h new_obj)
             = CardTable.card_overlaps (_card_table bs) i (object_region h new_obj))
    as [Hq1 Ho1].
  { destruct (flush_Ok_cases _ _ _ _ _ _ Hf)
      as [(_ & -> & _) | (_ & _ & _ & _ & -> & _)]; [auto|].
    split; [by apply query_dirty_MemRegion_outside | reflexivity]. }
  destruct Hcases as [(-> & _) | [(_ & -> & _) | (Hd1 & -> & _)]]; [exact Hq1 | exact Hq1 |].
  destruct Hnew as [Hnew | Hdefer]; [|congruence].
  rewrite <- Hq1. apply query_dirty_MemRegion_outside. by rewrite Ho1.
Qed.

(** The armed thread allocates the object at 1040: the pending object's card
    3 is marked, the new object's card 2 is not touched. *)
Lemma on_slowpath_allocation_exit_frame_witness :
  CardTable.query (_card_table (write_region ex_barrier (MemRegion.make 1536 4))) 2
  = CardTable.query (_card_table ex_barrier) 2.
Proof.
  apply (on_slowpath_allocation_exit_frame ex_globals ex_heap ex_barrier
           ex_armed_thread 1040 (write_region ex_barrier (MemRegion.make 1536 4))
           (set_deferred_card_mark ex_armed_thread (MemRegion.make 1040 4)) eq_refl).
  - reflexivity.
  - right. reflexivity.
Defined.

(** X12. [initialize] computes the defer flag from the policy and the card
    table alone and leaves the card table as it is, so initializing again
    changes nothing; it can stop only in a build without the compiler, at a
    barrier whose flag is already set. *)
Theorem initialize_once g bs :
  (forall bs',
     initialize g bs = Ok bs' ->
     _card_table bs' = _card_table bs
     /\ _defer_initial_card_mark bs' = defer_policy g (_card_table bs)
     /\ initialize g bs' = Ok bs')
  /\ (forall msg,
        initialize g bs = Fatal msg ->
        COMPILER2_or_JVMCI g = false /\ _defer_initial_card_mark bs = true)
  /\ (COMPILER2_or_JVMCI g = true \/ _defer_initial_card_mark bs = false ->
      exists bs', initialize g bs = Ok bs').
Proof.
  unfold initialize, initialize_deferred_card_mark_barriers, defer_policy,
    card_mark_must_follow_store.
  destruct (COMPILER2_or_JVMCI g); simpl.
  - split; [|split].
    + intros bs' [= <-]. simpl. auto.
    + intros msg Hf. discriminate.
    + eauto.
  - destruct (_defer_initial_card_mark bs) eqn:Hd; simpl.
    + split; [intros bs' Hf; discriminate|].
      split; [auto|]. intros [Hc|Hc]; discriminate.
    + split; [|split].
      * intros bs' [= <-]. rewrite Hd. auto.
      * intros msg Hf. discriminate.
      * eauto.
Qed.

Lemma initialize_once_witness :
  initialize ex_globals ex_barrier = Ok ex_barrier
  /\ exists bs', initialize ex_globals (new_CardTableModRefBS ex_card_table) = Ok bs'.
Proof.
  split.
  - apply (proj1 (initialize_once ex_globals (new_CardTableModRefBS ex_card_table))
             ex_barrier eq_refl).
  - apply (proj2 (proj2 (initialize_once ex_globals (new_CardTableModRefBS ex_card_table)))).
    left. reflexivity.
Defined.

(** ** No deferred mark is lost *)

Section Liveness.
Variables (g : Globals) (h : Heap).
Hypothesis HC : COMPILER2_or_JVMCI g = true.
Hypothesis HR : ReduceInitialCardMarks g = true.

Lemma object_region_refers obj :
  needs_card_mark h obj = true -> is_oop h obj = true ->
  refers_to_old_object h (object_region h obj) = true.
Proof.
  unfold needs_card_mark, refers_to_old_object, object_region. simpl.
  intros Hn Ho. apply negb_true_iff, orb_false_iff in Hn as [_ Hy].
  rewrite Hy, Ho, Z.eqb_refl. reflexivity.
Qed.

Lemma slowpath_step bs thread obj :
  flush_admissible g h bs thread = true -> markable h obj ->
  exists bs1 thread1,
    on_slowpath_allocation_exit g h bs thread obj = Ok (bs1, thread1)
    /\ flush_admissible g h bs1 thread1 = true
    /\ (forall lo hi, covered (_card_table bs) lo hi -> covered (_card_table bs1) lo hi)
    /\ covered (_card_table bs1) (MemRegion.start (deferred_card_mark thread))
               (MemRegion.end_ (deferred_card_mark thread))
    /\ (needs_card_mark h obj = true ->
        covered (_card_table bs1) obj (obj + size h obj * HeapWordSize)
        \/ deferred_card_mark thread1 = MemRegion.make obj (size h obj)).
Proof.
  intros Hadm Hproper. rewrite <- flush_is_Ok in Hadm.
  destruct (flush_deferred_card_mark_barrier g h bs thread) as [[bs0 thread0]|msg] eqn:Hf;
    [|discriminate].
  destruct (flush_Ok_post _ _ _ _ _ _ Hf) as (He & Hd & Hcov).
  assert (forall lo hi, covered (_card_table bs) lo hi -> covered (_card_table bs0) lo hi)
    as Hkeep.
  { destruct (flush_Ok_cases _ _ _ _ _ _ Hf)
      as [(_ & -> & _) | (_ & _ & _ & _ & -> & _)]; [auto|].
    intros lo hi. apply covered_dirty_MemRegion. }
  assert (flush_admissible g h bs0 thread0 = true) as Hadm0.
  { unfold flush_admissible. by rewrite HC, He. }
  rewrite (slowpath_after_flush g h bs thread obj HC HR bs0 thread0 Hf).
  unfold markable, needs_card_mark in Hproper |- *.
  destruct (is_typeArray h obj || is_in_young h obj) eqn:Hkind.
  { exists bs0, thread0. repeat split; try assumption. discriminate. }
  destruct (Hproper eq_refl) as [Hoop Hsz].
  destruct (object_region_proper h obj Hsz) as [Hreg Hne]. rewrite Hne.
  destruct (_defer_initial_card_mark bs0) eqn:Hd0.
  - exists bs0, (set_deferred_card_mark thread0 (object_region h obj)).
    repeat split; try assumption.
    + unfold flush_admissible. rewrite HC, Hd0. simpl.
      rewrite object_region_refers; [apply orb_true_r | | exact Hoop].
      unfold needs_card_mark. by rewrite Hkind.
    + intros _. right. exact Hreg.
  - exists (invalidate bs0 (object_region h obj)), thread0.
    repeat split; try assumption.
    + intros lo hi Hc. apply covered_dirty_MemRegion. by apply Hkeep.
    + by apply covered_dirty_MemRegion.
    + intros _. left. rewrite Hreg.
      apply (dirty_MemRegion_covers (_card_table bs0) (MemRegion.make obj (size h obj))).
Qed.

Lemma allocate_all_marks objs : forall bs thread,
  flush_admissible g h bs thread = true ->
  (forall obj, obj ∈ objs -> markable h obj) ->
  exists bs1 thread1,
    allocate_all g h objs (bs, thread) = Ok (bs1, thread1)
    /\ flush_admissible g h bs1 thread1 = true
    /\ (forall lo hi, covered (_card_table bs) lo hi -> covered (_card_table bs1) lo hi)
    /\ (MemRegion.is_empty (deferred_card_mark thread) = false ->
        objs <> [] ->
        covered (_card_table bs1) (MemRegion.start (deferred_card_mark thread))
                (MemRegion.end_ (deferred_card_mark thread)))
    /\ (forall obj, obj ∈ objs -> needs_card_mark h obj = true ->
        covered (_card_table bs1) obj (obj + size h obj * HeapWordSize)
        \/ deferred_card_mark thread1 = MemRegion.make obj (size h obj)).
Proof.
  induction objs as [|obj rest IH]; intros bs thread Hadm Hall.
  - exists bs, thread. simpl. repeat split; try assumption; try done.
    intros obj Hin. by apply elem_of_nil in Hin.
  - destruct (slowpath_step bs thread obj Hadm) as (bs1 & thread1 & Hs & Hadm1 & Hk1 & Hold & Hnew).
    { apply Hall. left. }
    destruct (IH bs1 thread1 Hadm1) as (bs2 & thread2 & Ha & Hadm2 & Hk2 & Hpend & Hrest).
    { intros o Ho. apply Hall. by right. }
    exists bs2, thread2. simpl. rewrite Hs. simpl.
    split; [exact Ha|]. split; [exact Hadm2|]. split; [auto|]. split; [auto|].
    intros o Ho Hneed. apply elem_of_cons in Ho as [-> | Ho]; [|by apply Hrest].
    destruct (Hnew Hneed) as [Hcov | Hslot]; [left; auto|].
    destruct rest as [|o' rest'].
    + simpl in Ha. injection Ha as <- <-. right. exact Hslot.
    + left.
      assert (0 < size h obj < 2 ^ 64) as Hsz by (apply (Hall obj); [left | exact Hneed]).
      assert (MemRegion.is_empty (deferred_card_mark thread1) = false) as Hne.
      { rewrite Hslot. unfold MemRegion.is_empty. simpl. apply Z.eqb_neq. lia. }
      specialize (Hpend Hne ltac:(discriminate)). by rewrite Hslot in Hpend.
Qed.

End Liveness.

Lemma flush_table g h bs thread bs' thread' :
  flush_deferred_card_mark_barrier g h bs thread = Ok (bs', thread') ->
  _card_table bs' = CardTable.dirty_MemRegion (_card_table bs) (deferred_card_mark thread)
  /\ _defer_initial_card_mark bs' = _defer_initial_card_mark bs
  /\ MemRegion.is_empty (deferred_card_mark thread') = true.
Proof.
  intros Hf. destruct (flush_Ok_post _ _ _ _ _ _ Hf) as (He & Hd & _).
  split; [|auto].
  destruct (flush_Ok_cases _ _ _ _ _ _ Hf) as [(He0 & -> & _) | (_ & _ & _ & _ & -> & _)].
  - symmetry. by apply dirty_MemRegion_empty.
  - reflexivity.
Qed.

Lemma slowpath_table g h bs thread new_obj bs1 thread1 :
  COMPILER2_or_JVMCI g = true -> ReduceInitialCardMarks g = true ->
  on_slowpath_allocation_exit g h bs thread new_obj = Ok (bs1, thread1) ->
  CardTable.dirty_MemRegion (_card_table bs1) (deferred_card_mark thread1)
  = dirty_objects h [new_obj]
      (CardTable.dirty_MemRegion (_card_table bs) (deferred_card_mark thread))
  /\ _defer_initial_card_mark bs1 = _defer_initial_card_mark bs.
Proof.
  intros HC HR Hs.
  destruct (flush_deferred_card_mark_barrier g h bs thread) as [[bs0 thread0]|msg] eqn:Hf.
  2:{ rewrite (slowpath_flush_fatal g h bs thread new_obj HC HR msg Hf) in Hs. discriminate. }
  destruct (flush_table _ _ _ _ _ _ Hf) as (Hct & Hd & He).
  rewrite (slowpath_after_flush g h bs thread new_obj HC HR bs0 thread0 Hf) in Hs.
  simpl. unfold needs_card_mark. rewrite <- Hct.
  destruct (is_typeArray h new_obj || is_in_young h new_obj); simpl.
  { injection Hs as <- <-. split; [by apply dirty_MemRegion_empty | exact Hd]. }
  destruct (MemRegion.is_empty (object_region h new_obj)); [discriminate|].
  destruct (_defer_initial_card_mark bs0) eqn:Hd0; injection Hs as <- <-.
  - split; [reflexivity | congruence].
  - split; [by apply dirty_MemRegion_empty | simpl; congruence].
Qed.

Lemma allocate_all_table g h objs : forall bs thread bs1 thread1,
  COMPILER2_or_JVMCI g = true -> ReduceInitialCardMarks g = true ->
  allocate_all g h objs (bs, thread) = Ok (bs1, thread1) ->
  CardTable.dirty_MemRegion (_card_table bs1) (deferred_card_mark thread1)
  = dirty_objects h objs
      (CardTable.dirty_MemRegion (_card_table bs) (deferred_card_mark thread))
  /\ _defer_initial_card_mark bs1 = _defer_initial_card_mark bs.
Proof.
  induction objs as [|obj rest IH]; intros bs thread bs1 thread1 HC HR Ha; simpl in Ha.
  - by injection Ha as <- <-.
  - apply bind_Ok in Ha as ([bs0 thread0] & Hs & Ha). simpl in Hs.
    destruct (slowpath_table g h bs thread obj bs0 thread0 HC HR Hs) as [Hct0 Hd0].
    destruct (IH bs0 thread0 bs1 thread1 HC HR Ha) as [Hct1 Hd1].
    split; [|congruence]. rewrite Hct1, Hct0. reflexivity.
Qed.

Lemma dirty_objects_geometry h objs : forall ct,
  same_geometry ct (dirty_objects h objs ct).
Proof.
  induction objs as [|obj rest IH]; intros ct; simpl; [apply same_geometry_refl|].
  destruct (needs_card_mark h obj); [|apply IH].
  apply (same_geometry_trans _ (CardTable.dirty_MemRegion ct (object_region h obj)));
    [apply dirty_MemRegion_geometry | apply IH].
Qed.

(** X13. No deferred mark is lost. In a build with the compiler and with
    [ReduceInitialCardMarks] on, let a thread whose slot is empty leave the
    slow path for each object of a list in turn and then detach, over a heap
    in which every listed object that needs a card mark is an object of
    positive size. Then the run returns, the slot is empty at the end, the
    defer flag is as it was, and the card table returned is the one given
    with the regions of exactly the listed objects that need a card mark
    dirtied, in order: every card of the given table that has a byte in such
    an object is dirty, whether the barrier defers marks or not. *)
Theorem allocate_then_detach_marks_all g h objs bs thread :
  COMPILER2_or_JVMCI g = true ->
  ReduceInitialCardMarks g = true ->
  MemRegion.is_empty (deferred_card_mark thread) = true ->
  (forall obj, obj ∈ objs -> needs_card_mark h obj = true ->
               is_oop h obj = true /\ 0 < size h obj < 2 ^ 64) ->
  exists bs' thread',
    allocate_then_detach g h objs (bs, thread) = Ok (bs', thread')
    /\ MemRegion.is_empty (deferred_card_mark thread') = true
    /\ _defer_initial_card_mark bs' = _defer_initial_card_mark bs
    /\ _card_table bs' = dirty_objects h objs (_card_table bs)
    /\ forall obj, obj ∈ objs -> needs_card_mark h obj = true ->
         marked (_card_table bs) (_card_table bs')
                obj (obj + size h obj * HeapWordSize)
         /\ covered (_card_table bs') obj (obj + size h obj * HeapWordSize).
Proof.
  intros HC HR He Hall.
  destruct (allocate_all_marks g h HC HR objs bs thread)
    as (bs1 & thread1 & Ha & Hadm & _ & _ & Hmarks).
  { unfold flush_admissible. by rewrite HC, He. }
  { exact Hall. }
  destruct (allocate_all_table g h objs bs thread bs1 thread1 HC HR Ha) as [Hct1 Hd1].
  unfold allocate_then_detach, on_thread_detach. rewrite Ha. simpl.
  rewrite <- flush_is_Ok in Hadm.
  destruct (flush_deferred_card_mark_barrier g h bs1 thread1) as [[bs' thread']|msg] eqn:Hf;
    [|discriminate].
  destruct (flush_Ok_post _ _ _ _ _ _ Hf) as (He' & _ & Hcov).
  destruct (flush_table _ _ _ _ _ _ Hf) as (Hct' & Hd' & _).
  assert (_card_table bs' = dirty_objects h objs (_card_table bs)) as Htable.
  { rewrite Hct', Hct1. f_equal. by apply dirty_MemRegion_empty. }
  exists bs', thread'. split; [reflexivity|]. split; [exact He'|].
  split; [congruence|]. split; [exact Htable|].
  intros obj Hin Hneed.
  assert (covered (_card_table bs') obj (obj + size h obj * HeapWordSize)) as Hc'.
  { destruct (Hmarks obj Hin Hneed) as [Hc | Hslot].
    - destruct (flush_Ok_cases _ _ _ _ _ _ Hf)
        as [(_ & -> & _) | (_ & _ & _ & _ & -> & _)]; [exact Hc|].
      by apply covered_dirty_MemRegion.
    - by rewrite Hslot in Hcov. }
  split; [|exact Hc'].
  apply covered_marked; [|exact Hc']. rewrite Htable. apply dirty_objects_geometry.
Qed.

(** Three allocations, the second a primitive-element array, then detach:
    cards 2 and 3, which hold the objects at 1040 and 1536, are dirty at
    the end and the other two cards are as they were. *)
Lemma allocate_then_detach_marks_all_witness :
  exists bs' thread',
    allocate_then_detach ex_globals ex_heap [1536; 1024; 1040] (ex_barrier, new_JavaThread)
    = Ok (bs', thread')
    /\ CardTable.byte_map (_card_table bs')
       = [CardTable.clean_card; CardTable.clean_card; CardTable.dirty_card;
          CardTable.dirty_card]
    /\ marked (_card_table ex_barrier) (_card_table bs') 1536 1568
    /\ marked (_card_table ex_barrier) (_card_table bs') 1040 1072.
Proof.
  destruct (allocate_then_detach_marks_all ex_globals ex_heap [1536; 1024; 1040]
              ex_barrier new_JavaThread eq_refl eq_refl eq_refl)
    as (bs' & thread' & Hrun & _ & _ & Htable & Hmarks).
  - intros obj _ _. split; [reflexivity | vm_compute; split; reflexivity].
  - exists bs', thread'. split; [exact Hrun|]. split; [by rewrite Htable|]. split.
    + apply (Hmarks 1536); [left | reflexivity].
    + apply (Hmarks 1040); [right; right; left | reflexivity].
Defined.

(** ** jstat's OptionFinder *)

Local Open Scope list_scope.

Section OptionFinderFacts.
Context {OptionFormat ColumnFormat : Type}
        `{OptionFinder.Collaborators OptionFormat ColumnFormat}.

Lemma first_format_skip (l1 rest : list (OptionFinder.Parser OptionFormat)) opt :
  Forall (OptionFinder.skips opt) l1 ->
  OptionFinder.first_format (l1 ++ rest) opt = OptionFinder.first_format rest opt.
Proof.
  induction 1 as [|p l1 [Hp | Hp] _ IH]; simpl; [reflexivity | |]; by rewrite Hp.
Qed.

Lemma first_format_cases (parsers : list (OptionFinder.Parser OptionFormat)) opt :
  (Forall (OptionFinder.skips opt) parsers
   /\ OptionFinder.first_format parsers opt = Ok None)
  \/ (exists l1 p l2,
        parsers = l1 ++ p :: l2 /\ Forall (OptionFinder.skips opt) l1
        /\ ((exists format, p opt = OptionFinder.Parsed format
                            /\ OptionFinder.first_format parsers opt = Ok (Some format))
            \/ (exists exn, p opt = OptionFinder.Thrown exn
                            /\ OptionFinder.first_format parsers opt = Fatal exn))).
Proof.
  induction parsers as [|p rest IH]; simpl.
  - left. split; [constructor | reflexivity].
  - destruct (p opt) as [format| | |exn] eqn:Hp.
    + right. exists [], p, rest. repeat split; [constructor|]. left. eauto.
    + destruct IH as [[Hall Hr] | (l1 & q & l2 & -> & Hall & Hq)].
      * left. split; [constructor; [by left | exact Hall] | exact Hr].
      * right. exists (p :: l1), q, l2. split; [reflexivity|].
        split; [constructor; [by left | exact Hall] | exact Hq].
    + destruct IH as [[Hall Hr] | (l1 & q & l2 & -> & Hall & Hq)].
      * left. split; [constructor; [by right | exact Hall] | exact Hr].
      * right. exists (p :: l1), q, l2. split; [reflexivity|].
        split; [constructor; [by right | exact Hall] | exact Hq].
    + right. exists [], p, rest. repeat split; [constructor|]. right. eauto.
Qed.

(** X14. [getOptionFormat(option)] returns the format of the first parser
    that parses the option, passing over the parsers before it that return
    [null] or throw a caught exception; it returns [null] exactly when every
    parser does one of these two; and it throws exactly what the first
    parser that is not passed over throws. *)
Theorem getOptionFormat_first_match (finder : OptionFinder.t) opt :
  (forall format,
     OptionFinder.getOptionFormat finder opt = Ok (Some format) <->
     exists l1 p l2,
       OptionFinder.getOptionParsers finder = l1 ++ p :: l2
       /\ Forall (OptionFinder.skips opt) l1
       /\ p opt = OptionFinder.Parsed format)
  /\ (OptionFinder.getOptionFormat finder opt = Ok None <->
      Forall (OptionFinder.skips opt) (OptionFinder.getOptionParsers finder))
  /\ (forall exn,
        OptionFinder.getOptionFormat finder opt = Fatal exn <->
        exists l1 p l2,
          OptionFinder.getOptionParsers finder = l1 ++ p :: l2
          /\ Forall (OptionFinder.skips opt) l1
          /\ p opt = OptionFinder.Thrown exn).
Proof.
  unfold OptionFinder.getOptionFormat.
  set (parsers := OptionFinder.getOptionParsers finder).
  pose proof (first_format_cases parsers opt) as Hcases.
  split; [|split].
  - intros format. split.
    + intros Hr.
      destruct Hcases as [[_ Hn] | (l1 & p & l2 & Heq & Hall & [(f & Hp & Hf) | (e & Hp & Hf)])];
        [congruence | | congruence].
      exists l1, p, l2. repeat split; try assumption. congruence.
    + intros (l1 & p & l2 & -> & Hall & Hp).
      rewrite first_format_skip by exact Hall. simpl. by rewrite Hp.
  - split.
    + intros Hr.
      destruct Hcases as [[Hall _] | (l1 & p & l2 & Heq & Hall & [(f & Hp & Hf) | (e & Hp & Hf)])];
        [exact Hall | congruence | congruence].
    + intros Hall. rewrite <- (app_nil_r parsers).
      by rewrite first_format_skip.
  - intros exn. split.
    + intros Hr.
      destruct Hcases as [[_ Hn] | (l1 & p & l2 & Heq & Hall & [(f & Hp & Hf) | (e & Hp & Hf)])];
        [congruence | congruence |].
      exists l1, p, l2. repeat split; try assumption. congruence.
    + intros (l1 & p & l2 & -> & Hall & Hp).
      rewrite first_format_skip by exact Hall. simpl. by rewrite Hp.
Qed.

(** X15. Asking for the timestamp column never changes whether an option is
    found: when every parser passes over the option the result is [null]
    and the timestamp format is not looked up; and a format that is
    returned comes from the first parser that parses the option, unchanged
    when no timestamp was asked for or no parser has a timestamp format. *)
Theorem getOptionFormat_useTimestamp_found (finder : OptionFinder.t) opt useTimestamp :
  (Forall (OptionFinder.skips opt) (OptionFinder.getOptionParsers finder) ->
   OptionFinder.getOptionFormat_useTimestamp finder opt useTimestamp = Ok None)
  /\ (forall r,
        OptionFinder.getOptionFormat_useTimestamp finder opt useTimestamp = Ok r ->
        match r with
        | None => Forall (OptionFinder.skips opt) (OptionFinder.getOptionParsers finder)
        | Some format' =>
            exists l1 p l2 format,
              OptionFinder.getOptionParsers finder = l1 ++ p :: l2
              /\ Forall (OptionFinder.skips opt) l1
              /\ p opt = OptionFinder.Parsed format
              /\ (useTimestamp = false
                  \/ Forall (OptionFinder.skips "timestamp")
                            (OptionFinder.getOptionParsers finder) ->
                  format' = format)
        end).
Proof.
  unfold OptionFinder.getOptionFormat_useTimestamp, OptionFinder.getOptionFormat.
  set (parsers := OptionFinder.getOptionParsers finder).
  split.
  - intros Hall. rewrite <- (app_nil_r parsers) at 1.
    by rewrite first_format_skip.
  - intros r Hr.
    destruct (first_format_cases parsers opt)
      as [[Hall Hn] | (l1 & p & l2 & Heq & Hall & [(f & Hp & Hf) | (e & Hp & Hf)])].
    + rewrite Hn in Hr. simpl in Hr. by injection Hr as <-.
    + rewrite Hf in Hr. simpl in Hr.
      assert (exists format', r = Some format'
                /\ (useTimestamp = false
                    \/ Forall (OptionFinder.skips "timestamp") parsers -> format' = f))
        as (format' & -> & Hsame).
      { destruct useTimestamp.
        - destruct (first_format_cases parsers "timestamp")
            as [[Hall' Hn'] | (l1' & p' & l2' & Heq' & Hall' & [(f' & Hp' & Hf') | (e' & Hp' & Hf')])].
          + rewrite Hn' in Hr. injection Hr as <-. eauto.
          + rewrite Hf' in Hr. simpl in Hr.
            apply bind_Ok in Hr as (sub & _ & Hr). apply bind_Ok in Hr as (cf & _ & Hr).
            apply bind_Ok in Hr as (f'' & _ & Hr). injection Hr as <-.
            exists f''. split; [reflexivity|]. intros [Hb | Hskip]; [discriminate|].
            exfalso. rewrite Heq' in Hskip. apply Forall_app in Hskip as [_ Hskip].
            apply Forall_cons in Hskip as [[Hs | Hs] _]; congruence.
          + rewrite Hf' in Hr. discriminate.
        - injection Hr as <-. eauto. }
      exists l1, p, l2, f. auto.
    + rewrite Hf in Hr. discriminate.
Qed.

End OptionFinderFacts.

(** The first source cannot be read and is passed over; the second has the
    option. *)
Lemma getOptionFormat_first_match_witness :
  OptionFinder.getOptionFormat ex_finder "gc" = Ok (Some ["S0C"; "S1C"])
  /\ OptionFinder.getOptionFormat ex_finder "class" = Ok None.
Proof.
  split.
  - apply (proj1 (getOptionFormat_first_match ex_finder "gc")).
    eexists [_], _, []. split; [reflexivity|]. split; [|reflexivity].
    constructor; [right; reflexivity | constructor].
  - apply (proj1 (proj2 (getOptionFormat_first_match ex_finder "class"))).
    constructor; [right; reflexivity|]. constructor; [left; reflexivity | constructor].
Defined.

(** An option no source has is not found, with or without the timestamp;
    an option that is found without the timestamp is the parsed one. *)
Lemma getOptionFormat_useTimestamp_found_witness :
  OptionFinder.getOptionFormat_useTimestamp ex_finder "class" true = Ok None
  /\ exists l1 p l2 format,
       OptionFinder.getOptionParsers ex_finder = l1 ++ p :: l2
       /\ Forall (OptionFinder.skips "gc") l1
       /\ p "gc" = OptionFinder.Parsed format.
Proof.
  split.
  - apply (proj1 (getOptionFormat_useTimestamp_found ex_finder "class" true)).
    constructor; [right; reflexivity|]. constructor; [left; reflexivity | constructor].
  - destruct (proj2 (getOptionFormat_useTimestamp_found (H := ex_formats)
                       ex_finder "gc" true)
                    (Some ["Timestamp"; "S0C"; "S1C"]) ltac:(reflexivity))
      as (l1 & p & l2 & format & Heq & Hall & Hp & _).
    exists l1, p, l2, format. auto.
Defined.
